(** * criticality_score: the scoring framework, the signal sources and the
    collection worker, embedded in Rocq.

    Packages are modules, Go structs are records, a nil-able pointer is an
    [option], a [(value, ok)] or [(value, error)] result is an [option] or a
    pair with an [option error], a Go [map[string]T] is a [gmap string T].
    What a package calls outside the sources (the Go standard library, the
    collector, the writers, BigQuery, the GitHub client) is a [Variable] of
    its section or a field of a class.

    A [float64] is read in two ways.  The scoring code only adds, multiplies
    and divides, so it is written once over an interface [Float64] and run at
    two carriers: the kernel's IEEE 754 binary64 numbers ([PrimFloat], what a
    [float64] is bit for bit) and the real numbers (what the transforms are
    meant to compute).  [math.Log] has no binary64 counterpart in Rocq, so it
    is a second interface, [MathLog], given at the reals by [ln].

    The file has three parts: the embedding of the sources, the vocabulary
    the properties are stated in, and the properties with their proofs. *)

From Stdlib Require Import Reals Floats ZArith Ascii String.
From stdpp Require Import gmap strings list fin_maps.

(** ** float64 *)

Class Float64 (F : Type) := {
  f0 : F;                 (* the zero value of a float64 variable *)
  f1 : F;                 (* the constant 1 *)
  fadd : F -> F -> F;     (* x + y *)
  fmul : F -> F -> F;     (* x * y *)
  fdiv : F -> F -> F;     (* x / y *)
}.

(** [math.Log]. *)
Class MathLog (F : Type) := Log : F -> F.

(** IEEE 754 binary64, round to nearest even, each operation rounded on its
    own (as on amd64; Go lets a compiler fuse [x*y + z] on some targets):
    division by zero does not panic, [0/0] is NaN. *)
#[export] Instance binary64 : Float64 float := {|
  f0 := PrimFloat.zero;
  f1 := PrimFloat.one;
  fadd := PrimFloat.add;
  fmul := PrimFloat.mul;
  fdiv := PrimFloat.div;
|}.

(** The real numbers: the arithmetic a float64 approximates.  Rocq's [/]
    on the reals is total ([x / 0] is [x * / 0]), so what the code does on a
    zero divisor is only read off at [binary64]. *)
#[export] Instance real : Float64 R := {|
  f0 := 0%R;
  f1 := 1%R;
  fadd := Rplus;
  fmul := Rmult;
  fdiv := Rdiv;
|}.

(** [math.Log] at the reals: Rocq's [ln], which does not round and is [0]
    on [x <= 0], where [math.Log] gives [-Inf] or NaN.  It is used for what
    the transforms compute on values whose logarithm exists. *)
#[export] Instance real_Log : MathLog R := ln.

(** ** errors *)

Module errors.

(** An error value is either the value a call of [errors.New] returned, or
    wraps another one ([fmt.Errorf] with a [%w] verb).  [errors.New] returns
    a pointer, and no two calls return the same one, whatever the text:
    [addr] stands for that pointer and tells the values apart, so that a
    second [errors.New] with the text of a sentinel is not the sentinel.  A
    wrapper is written by its format and what it wraps. *)
Inductive error : Type :=
| New (addr : positive) (text : string)
| Errorf (format : string) (err : error).

#[export] Instance error_eq_dec : EqDecision error.
Proof. solve_decision. Defined.

(** [errors.Is]: [err] or an error it wraps is [target].  Go compares the
    values with [==], pointers for these two kinds of error: the comparison
    below is the same for a target made by [errors.New] (equal addresses),
    and for a wrapper asked about the error it wraps. *)
Fixpoint Is (err target : error) : bool :=
  if decide (err = target) then true
  else match err with
       | New _ _ => false
       | Errorf _ inner => Is inner target
       end.

(** How many times an error wraps another one. *)
Fixpoint depth (err : error) : nat :=
  match err with
  | New _ _ => 0
  | Errorf _ inner => S (depth inner)
  end.

End errors.

(** ** package algorithm: distributions and inputs *)

Module algorithm.

Section WithFloat.
Context {F : Type} `{Float64 F} `{MathLog F}.

Record Distribution := {
  name : string;
  normalizeFn : F -> F;
}.

Definition String (d : Distribution) : string := name d.

Definition Normalize (d : Distribution) (v : F) : F := normalizeFn d v.

Definition normalizationFuncs : gmap string (F -> F) :=
  {[ "linear" := (fun v => v);
     "zapfian" := (fun v => Log (fadd f1 v)) ]}.

Definition DefaultDistributionName : string := "linear".

(** The result is a pointer: [None] is nil. *)
Definition LookupDistribution (name : string) : option Distribution :=
  match normalizationFuncs !! name with
  | None => None
  | Some fn => Some {| name := name; normalizeFn := fn |}
  end.

(** Modelled from the spec: the type [Input] and its method [Value], declared
    in a file of package algorithm that is not among the sources.  An Input is
    "a weight, a Distribution used to normalize the raw value before
    aggregation, and an accessor that extracts the raw numeric value from a
    Record, yielding value, present instead of erroring when absent".  The
    field [Dist] is the distribution (a record type and a field cannot share
    the name [Distribution] here). *)
Record Input := {
  Weight : F;
  Dist : Distribution;
  Source : gmap string F -> option F;
}.

Definition Value (i : Input) (fields : gmap string F) : option F :=
  match Source i fields with
  | None => None
  | Some v => Some (Normalize (Dist i) v)
  end.

(** The accessor of an input configured with a field key. *)
Definition Field (key : string) : gmap string F -> option F :=
  fun fields => fields !! key.

End WithFloat.

Arguments Distribution F : clear implicits.
Arguments Input F : clear implicits.

End algorithm.

(** ** package wam: the weighted arithmetic mean *)

Module wam.
Import algorithm.

Section WithFloat.
Context {F : Type} `{Float64 F}.

Definition Name : string := "weighted_arithmetic_mean".

Record WeightedArithmeticMean := {
  inputs : list (Input F);
}.

Definition New (inputs : list (Input F))
  : WeightedArithmeticMean * option errors.error :=
  ({| inputs := inputs |}, None).

(** One turn of the loop of [Score] on the pair [(itemSum, itemCount)]. *)
Definition accumulate (record : gmap string F) (acc : F * F) (i : Input F)
  : F * F :=
  let '(itemSum, itemCount) := acc in
  match Value i record with
  | Some v =>
      let itemCount := fadd itemCount (Weight i) in
      let itemSum := fadd itemSum (fmul (Weight i) v) in
      (itemSum, itemCount)
  | None => (itemSum, itemCount)
  end.

Definition Score (p : WeightedArithmeticMean) (record : gmap string F) : F :=
  let '(itemSum, itemCount) := foldl (accumulate record) (f0, f0) (inputs p) in
  fdiv itemSum itemCount.

End WithFloat.

Arguments WeightedArithmeticMean F : clear implicits.

End wam.

(** ** Standard-library types the packages below pass around *)

Module url.

(** [net/url.URL], with the fields the sources read. *)
Record URL := {
  Scheme : string;
  Host : string;
  Path : string;
}.

End url.

Module gostrings.

Fixpoint trimLeftByte (s : string) (c : ascii) : string :=
  match s with
  | String a rest => if decide (a = c) then trimLeftByte rest c else s
  | EmptyString => EmptyString
  end.

Definition trimRightByte (s : string) (c : ascii) : string :=
  String.rev (trimLeftByte (String.rev s) c).

(** [strings.Trim(s, cutset)] for a cutset of one ASCII character, the only
    way the sources call it: leading and trailing occurrences are removed. *)
Definition Trim (s : string) (c : ascii) : string :=
  trimLeftByte (trimRightByte s c) c.

(** [strings.Split(s, sep)] for a separator of one ASCII character: the
    pieces of [s] between the occurrences of [sep], one more piece than
    there are occurrences (so at least one, the empty string for [""]). *)
Fixpoint Split (s : string) (sep : ascii) : list string :=
  match s with
  | EmptyString => [EmptyString]
  | String a rest =>
      if decide (a = sep) then EmptyString :: Split rest sep
      else match Split rest sep with
           | piece :: pieces => String a piece :: pieces
           | [] => [String a EmptyString]
           end
  end.

End gostrings.

Module projectrepo.

(** A [projectrepo.Repo], as far as the sources use it: its method [URL]. *)
Record Repo := {
  URL : url.URL;
}.

End projectrepo.

(** ** package signal *)

Module signal.

Definition Namespace := string.

(** Modelled from the spec: [signal.Field[T]], declared in a package that is
    not among the sources: "an optional, typed scalar.  States: unset (no data
    obtained) and set(value)". *)
Definition Field (T : Type) := option T.

Definition Unset {T : Type} : Field T := None.

(** The method [Set]: the field now holds [v]. *)
Definition Set_ {T : Type} (f : Field T) (v : T) : Field T := Some v.

Definition IsSet {T : Type} (f : Field T) : bool :=
  match f with Some _ => true | None => false end.

End signal.

(** ** package vcs *)

Module vcs.

Definition MissingCommitID : string := "-missing-".
Definition commitIDKey : string := "vcs.revision".

(** [runtime/debug]: a build setting, and the build information of the
    binary. *)
Record BuildSetting := {
  Key : string;
  Value : string;
}.

Record BuildInfo := {
  Settings : list BuildSetting;
}.

Section WithBuildInfo.
(** What [debug.ReadBuildInfo()] returns in this binary; [None] when its
    second result is false. *)
Variable ReadBuildInfo : option BuildInfo.

(** The loop of [fetchCommitID] over the settings. *)
Fixpoint revisionOf (settings : list BuildSetting) : string :=
  match settings with
  | setting :: rest =>
      if decide (Key setting = commitIDKey) then Value setting
      else revisionOf rest
  | [] => MissingCommitID
  end.

Definition fetchCommitID : string :=
  match ReadBuildInfo with
  | None => MissingCommitID
  | Some info => revisionOf (Settings info)
  end.

(** [CommitID()], on the package variable [commitID]: the result and the
    variable afterwards. *)
Definition CommitID (commitID : string) : string * string :=
  let commitID :=
    if decide (commitID = "") then fetchCommitID else commitID in
  (commitID, commitID).

End WithBuildInfo.

End vcs.

(** ** package depsdev *)

Module depsdev.
Import errors.

Record depsDevSet := {
  DependentCount : signal.Field Z;
}.

Definition Namespace (s : depsDevSet) : signal.Namespace := "depsdev".

Definition EmptySet : depsDevSet := {| DependentCount := signal.Unset |}.

Section WithDependents.
(** The method [Hostname] of a URL. *)
Variable Hostname : url.URL -> string.
(** [c.dependents.Count(ctx, projectName, projectType, jobID)], the BigQuery
    lookup: the count, whether a row was found, and the error. *)
Variable Count : string -> string -> string -> Z * bool * option error.

Definition parseRepoURL (u : url.URL) : string * string :=
  let hn := Hostname u in
  if decide (hn = "github.com")
  then (gostrings.Trim (url.Path u) "/"%char, "GITHUB")
  else ("", "").

Definition IsSupported (r : projectrepo.Repo) : bool :=
  let '(_, t) := parseRepoURL (projectrepo.URL r) in
  negb (bool_decide (t = "")).

(** The set is returned through a pointer: [None] is the nil set. *)
Definition Get (r : projectrepo.Repo) (jobID : string)
  : option depsDevSet * option error :=
  let s := {| DependentCount := signal.Unset |} in
  let '(n, t) := parseRepoURL (projectrepo.URL r) in
  if decide (t = "") then (Some s, None)
  else
    let '(deps, found, err) := Count n t jobID in
    match err with
    | Some err =>
        (None, Some (Errorf "failed to fetch deps.dev dependent count: %w" err))
    | None =>
        let s :=
          if found
          then {| DependentCount := signal.Set_ (DependentCount s) deps |}
          else s in
        (Some s, None)
    end.

End WithDependents.

End depsdev.

(** ** package githubmentions *)

Module githubmentions.
Import errors.

Record mentionSet := {
  MentionCount : signal.Field Z;
}.

Definition Namespace (s : mentionSet) : signal.Namespace := "github_mentions".

Definition EmptySet : mentionSet := {| MentionCount := signal.Unset |}.

(** [github.CommitsSearchResult] and its nil-safe getter. *)
Record CommitsSearchResult := {
  Total : option Z;
}.

Definition GetTotal (r : option CommitsSearchResult) : Z :=
  match r with
  | Some {| Total := Some total |} => total
  | _ => 0%Z
  end.

Definition IsSupported (r : projectrepo.Repo) : bool := true.

Section WithClient.
(** [c.client.Rest().Search.Commits(ctx, query, opts)]: the result and the
    error (the response in between is dropped by the caller). *)
Variable SearchCommits : string -> option CommitsSearchResult * option error.

(** The double quote character. *)
Definition quote : string := String (ascii_of_nat 34) EmptyString.

Definition githubSearchTotalCommitMentions (u : url.URL) : Z * option error :=
  let repoName := gostrings.Trim (url.Path u) "/"%char in
  let '(commits, err) := SearchCommits (quote +:+ repoName +:+ quote) in
  match err with
  | Some err => (0%Z, Some err)
  | None => (GetTotal commits, None)
  end.

Definition Get (r : projectrepo.Repo) (_ : string)
  : option mentionSet * option error :=
  let s := {| MentionCount := signal.Unset |} in
  let '(c, err) := githubSearchTotalCommitMentions (projectrepo.URL r) in
  match err with
  | Some err => (None, Some err)
  | None => (Some {| MentionCount := signal.Set_ (MentionCount s) c |}, None)
  end.

End WithClient.

End githubmentions.

(** ** package github: the basic repository query *)

Module github.
Import errors.

(** [time.Hour], a [time.Duration] in nanoseconds. *)
Definition Hour : Z := 3600000000000.

Definition legacyReleaseLookbackDays : Z := 365.
Definition legacyReleaseLookback : Z := legacyReleaseLookbackDays * 24 * Hour.
Definition legacyCommitLookback : Z := 365 * 24 * Hour.

(** The instants are nanoseconds since the epoch; the nested anonymous
    structs of the source are spelled out as fields. *)
Record basicRepoData := {
  Name : string;
  URL : string;
  MirrorURL : string;
  OwnerLogin : string;
  LicenseInfoName : string;
  PrimaryLanguageName : string;
  CreatedAt : Z;
  UpdatedAt : Z;
  AuthoredDate : Z;
  RecentCommitsTotalCount : Z;
  StargazerCount : Z;
  HasIssuesEnabled : bool;
  IsArchived : bool;
  IsDisabled : bool;
  IsEmpty : bool;
  IsMirror : bool;
  WatchersTotalCount : Z;
  TagsTotalCount : Z;
}.

(** A value of the map of query variables. *)
Inductive variable : Type :=
| GraphqlString (s : string)
| GitTimestamp (t : Z).

(** How a call ends: with a run-time panic, or by returning. *)
Inductive outcome (A : Type) : Type :=
| Panics
| Returns (a : A).
Arguments Panics {A}.
Arguments Returns {A} a.

Section WithClient.
(** What [time.Now()] gives when the query is built. *)
Variable Now : Z.
(** [client.Query(ctx, s, vars)]: the error, or the repository it filled
    in. *)
Variable Query : gmap string variable -> error + basicRepoData.

(** Indexing [parts[0]] and [parts[1]] panics when the slice is too
    short. *)
Definition queryBasicRepoData (u : url.URL)
  : outcome (option basicRepoData * option error) :=
  let parts := gostrings.Split (gostrings.Trim (url.Path u) "/"%char) "/"%char in
  match parts !! 0%nat with
  | None => Panics
  | Some owner =>
      match parts !! 1%nat with
      | None => Panics
      | Some name =>
          let now := Now in
          let vars : gmap string variable :=
            {[ "repositoryOwner" := GraphqlString owner;
               "repositoryName" := GraphqlString name;
               "legacyCommitLookback" :=
                 GitTimestamp (now + - legacyCommitLookback) ]} in
          match Query vars with
          | inl err => Returns (None, Some err)
          | inr repository => Returns (Some repository, None)
          end
      end
  end.

End WithClient.

End github.

(** ** package signalio *)

Module signalio.
Import errors.

(** A value of Go's type [any], as far as the worker stores one in a
    [Field]: a string, or a [time.Time] (an instant, in nanoseconds). *)
Inductive any : Type :=
| StringValue (s : string)
| TimeValue (t : Z).

Record Field := {
  Key : string;
  Value : any;
}.

(** Modelled from the spec: the output-format selector [WriterType] with
    [MarshalText], [UnmarshalText] and [String], declared in a file of package
    signalio that is not among the sources (its test is).  The spec: "an
    unrecognized name fails with a distinguishable unknown format error on both
    marshal and unmarshal paths"; the test names the formats csv, json and text
    and builds unknown selectors by converting an integer. *)
Definition WriterType := Z.

Definition WriterTypeCSV : WriterType := 0%Z.
Definition WriterTypeJSON : WriterType := 1%Z.
Definition WriterTypeText : WriterType := 2%Z.

Definition ErrorUnknownWriterType : error := New 1 "unknown writer type".

Definition MarshalText (t : WriterType) : string * option error :=
  if decide (t = WriterTypeCSV) then ("csv", None)
  else if decide (t = WriterTypeJSON) then ("json", None)
  else if decide (t = WriterTypeText) then ("text", None)
  else ("", Some ErrorUnknownWriterType).

(** The receiver is a pointer: the selector afterwards, and the error. *)
Definition UnmarshalText (t : WriterType) (text : string)
  : WriterType * option error :=
  if decide (text = "csv") then (WriterTypeCSV, None)
  else if decide (text = "json") then (WriterTypeJSON, None)
  else if decide (text = "text") then (WriterTypeText, None)
  else (t, Some ErrorUnknownWriterType).

Definition String (t : WriterType) : string :=
  match MarshalText t with
  | (text, None) => text
  | (_, Some _) => ""
  end.

End signalio.

(** ** package main of collect_signals: the worker *)

Module worker.
Import errors.

Definition collectionDateColumnName : string := "collection_date".
Definition commitIDColumnName : string := "worker_commit_id".

(** [data.Repo] and [data.ScorecardBatchRequest], with their getters. *)
Record Repo := {
  GetUrl : string;
}.

Record ScorecardBatchRequest := {
  GetRepos : list Repo;
  GetJobTime : Z;
  GetShardNum : Z;
}.

(** What [Process] calls outside this file.  [World] is everything a call
    can read or change outside the process: the network, the blob store. *)
Class Collaborators := {
  World : Type;
  SignalSet : Type;
  Collector : Type;
  Scorer : Type;
  (* the address and the text of the value of errors.New that the package
     variable collector.ErrUncollectableRepo holds *)
  uncollectableAddr : positive;
  uncollectableText : string;
  (* w.c.Collect(ctx, u, jobID) *)
  Collect : Collector -> url.URL -> string -> World ->
            (list SignalSet * option error) * World;
  (* w.c.EmptySets() *)
  EmptySets : Collector -> list SignalSet;
  (* fmt.Sprintf("%.5f", w.s.Score(ss)) *)
  scoreText : Scorer -> list SignalSet -> string;
  (* url.Parse(rawURL): an error, or a URL and a nil error *)
  Parse : string -> error + url.URL;
  (* debug.ReadBuildInfo() *)
  ReadBuildInfo : option vcs.BuildInfo;
  (* worker.ResultFilename(req) *)
  ResultFilename : ScorecardBatchRequest -> string;
  (* jobTime.Format("20060102_150405") *)
  Format : Z -> string;
  (* what WriteSignals of the JSON writer returns *)
  jsonWriteSignals : list SignalSet -> list signalio.Field -> option error;
  (* what WriteSignals of a CSV writer made with these empty sets and extras
     returns *)
  csvWriteSignals : list SignalSet -> list string ->
                    list SignalSet -> list signalio.Field -> option error;
  (* data.WriteToBlobStore(ctx, bucketURL, filename, content) *)
  WriteToBlobStore : string -> string ->
                     list (list SignalSet * list signalio.Field) -> World ->
                     option error * World;
}.

Section WithCollaborators.
Context `{Collaborators}.

(** Modelled from the spec: the package variable
    [collector.ErrUncollectableRepo], declared in a package that is not among
    the sources.  The spec speaks of "a Source reporting uncollectable" and of
    "an uncollectable repository error"; the variable is taken to hold the
    value of one call of [errors.New], whose address and text are given with
    the collaborators. *)
Definition ErrUncollectableRepo : error :=
  New uncollectableAddr uncollectableText.

(** The logger and the metrics exporter of the worker are left out: nothing
    below reads what they record. *)
Record collectWorker := {
  c : Collector;
  s : option Scorer;
  scoreColumnName : string;
  csvBucketURL : string;
}.

(** One record as a writer receives it. *)
Definition Row : Type := list SignalSet * list signalio.Field.

(** The two writers of signalio, by what they were constructed with. *)
Inductive Writer : Type :=
| jsonWriter
| csvWriter (emptySets : list SignalSet) (extras : list string).

(** A call into signalio, as [Process] makes it. *)
Inductive call : Type :=
| NewWriter (out : Writer)
| WriteSignalsCall (out : Writer) (ss : list SignalSet)
                   (extras : list signalio.Field).

(** The state [Process] runs in: the world outside, the package variable
    [vcs.commitID], the two buffers of the running call (as the rows written
    into them), and the calls made into signalio so far. *)
Record state := {
  world : World;
  commitID : string;
  jsonOutput : list Row;
  csvOutput : list Row;
  calls : list call;
}.

Definition setWorld (w : World) (σ : state) : state :=
  {| world := w; commitID := commitID σ; jsonOutput := jsonOutput σ;
     csvOutput := csvOutput σ; calls := calls σ |}.

Definition setCommitID (id : string) (σ : state) : state :=
  {| world := world σ; commitID := id; jsonOutput := jsonOutput σ;
     csvOutput := csvOutput σ; calls := calls σ |}.

Definition setJSONOutput (rows : list Row) (σ : state) : state :=
  {| world := world σ; commitID := commitID σ; jsonOutput := rows;
     csvOutput := csvOutput σ; calls := calls σ |}.

Definition setCSVOutput (rows : list Row) (σ : state) : state :=
  {| world := world σ; commitID := commitID σ; jsonOutput := jsonOutput σ;
     csvOutput := rows; calls := calls σ |}.

Definition record (k : call) (σ : state) : state :=
  {| world := world σ; commitID := commitID σ; jsonOutput := jsonOutput σ;
     csvOutput := csvOutput σ; calls := calls σ ++ [k] |}.

(** A computation that changes the state and either returns an error to
    the caller of [Process] or goes on with a value. *)
Definition M (A : Type) : Type := state -> (error + A) * state.

Definition ret {A : Type} (a : A) : M A := fun σ => (inr a, σ).

Definition fail {A : Type} (err : error) : M A := fun σ => (inl err, σ).

Definition bind {A B : Type} (m : M A) (k : A -> M B) : M B :=
  fun σ =>
    match m σ with
    | (inr a, σ') => k a σ'
    | (inl err, σ') => (inl err, σ')
    end.

(** [if err != nil { return fmt.Errorf(format, err) }] around a call. *)
Definition wrap {A : Type} (format : string) (m : M A) : M A :=
  fun σ =>
    match m σ with
    | (inl err, σ') => (inl (Errorf format err), σ')
    | (inr a, σ') => (inr a, σ')
    end.

Notation "x <- m ;; k" := (bind m (fun x => k))
  (at level 100, m at next level, right associativity).
Notation "m ;;; k" := (bind m (fun _ => k))
  (at level 100, right associativity).

(** [vcs.CommitID()]. *)
Definition CommitID : M string :=
  fun σ =>
    let '(id, var) := vcs.CommitID ReadBuildInfo (commitID σ) in
    (inr id, setCommitID var σ).

(** [w.c.Collect(ctx, u, jobID)]: both results are handed on. *)
Definition collect (col : Collector) (u : url.URL) (jobID : string)
  : M (list SignalSet * option error) :=
  fun σ =>
    let '(res, world') := Collect col u jobID (world σ) in
    (inr res, setWorld world' σ).

Definition JSONWriter : M Writer :=
  fun σ => (inr jsonWriter, record (NewWriter jsonWriter) (setJSONOutput [] σ)).

Definition CSVWriter (emptySets : list SignalSet) (extras : list string)
  : M Writer :=
  fun σ => (inr (csvWriter emptySets extras),
            record (NewWriter (csvWriter emptySets extras)) (setCSVOutput [] σ)).

(** [out.WriteSignals(ss, extras...)]: the call is recorded; when the
    writer accepts the record, it is one more row of its buffer. *)
Definition WriteSignals (out : Writer) (ss : list SignalSet)
  (extras : list signalio.Field) : M unit :=
  fun σ =>
    let σ := record (WriteSignalsCall out ss extras) σ in
    match out with
    | jsonWriter =>
        match jsonWriteSignals ss extras with
        | Some err => (inl err, σ)
        | None => (inr tt, setJSONOutput (jsonOutput σ ++ [(ss, extras)]) σ)
        end
    | csvWriter emptySets header =>
        match csvWriteSignals emptySets header ss extras with
        | Some err => (inl err, σ)
        | None => (inr tt, setCSVOutput (csvOutput σ ++ [(ss, extras)]) σ)
        end
    end.

(** [data.WriteToBlobStore(ctx, bucketURL, filename, buffer.Bytes())] on one
    of the two buffers. *)
Definition writeToBlobStore (bucketURL filename : string)
  (buffer : state -> list Row) : M unit :=
  fun σ =>
    let '(err, world') := WriteToBlobStore bucketURL filename (buffer σ) (world σ) in
    match err with
    | Some err => (inl err, setWorld world' σ)
    | None => (inr tt, setWorld world' σ)
    end.

(** "Prepare the output writer": the extra columns, then the two writers. *)
Definition prepare (w : collectWorker) : M (Writer * Writer) :=
  let extras := [] in
  let extras :=
    match s w with
    | Some _ => extras ++ [scoreColumnName w]
    | None => extras
    end in
  let extras := extras ++ [collectionDateColumnName] in
  commitID <- CommitID ;;
  let extras :=
    if decide (commitID <> vcs.MissingCommitID)
    then extras ++ [commitIDColumnName]
    else extras in
  jsonOut <- JSONWriter ;;
  csvOut <- CSVWriter (EmptySets (c w)) extras ;;
  ret (jsonOut, csvOut).

(** The body of the loop over the repos of the shard; [ret tt] where the
    source says [continue], [fail] where it returns an error. *)
Definition processRepo (w : collectWorker) (jobTime : Z) (jobID : string)
  (jsonOut csvOut : Writer) (repo : Repo) : M unit :=
  let rawURL := GetUrl repo in
  if decide (rawURL = "") then ret tt
  else
    match Parse rawURL with
    | inl err => ret tt
    | inr u =>
        res <- collect (c w) u jobID ;;
        match res with
        | (_, Some err) =>
            if Is err ErrUncollectableRepo then ret tt
            else fail (Errorf "failed during signal collection: %w" err)
        | (ss, None) =>
            let extras := [] in
            let extras :=
              match s w with
              | Some scorer =>
                  let f := {| signalio.Key := scoreColumnName w;
                              signalio.Value :=
                                signalio.StringValue (scoreText scorer ss) |} in
                  extras ++ [f]
              | None => extras
              end in
            let extras :=
              extras ++ [{| signalio.Key := collectionDateColumnName;
                            signalio.Value := signalio.TimeValue jobTime |}] in
            commitID <- CommitID ;;
            let extras :=
              if decide (commitID <> vcs.MissingCommitID)
              then extras ++ [{| signalio.Key := commitIDColumnName;
                                 signalio.Value := signalio.StringValue commitID |}]
              else extras in
            wrap "failed writing signals: %w"
              (WriteSignals jsonOut ss extras) ;;;
            wrap "failed writing signals: %w"
              (WriteSignals csvOut ss extras)
        end
    end.

Fixpoint processRepos (w : collectWorker) (jobTime : Z) (jobID : string)
  (jsonOut csvOut : Writer) (repos : list Repo) : M unit :=
  match repos with
  | [] => ret tt
  | repo :: rest =>
      processRepo w jobTime jobID jsonOut csvOut repo ;;;
      processRepos w jobTime jobID jsonOut csvOut rest
  end.

(** What follows the loop: the CSV bucket if it is set, then the canonical
    bucket. *)
Definition writeBuckets (w : collectWorker) (filename bucketURL : string)
  : M unit :=
  (if decide (csvBucketURL w <> "")
   then wrap "error writing csv to blob store: %w"
          (writeToBlobStore (csvBucketURL w) filename csvOutput)
   else ret tt) ;;;
  wrap "error writing json to blob store: %w"
    (writeToBlobStore bucketURL filename jsonOutput).

Definition Process (w : collectWorker) (req : ScorecardBatchRequest)
  (bucketURL : string) : M unit :=
  let filename := ResultFilename req in
  let jobTime := GetJobTime req in
  let jobID := Format jobTime in
  outs <- prepare w ;;
  let '(jsonOut, csvOut) := outs in
  processRepos w jobTime jobID jsonOut csvOut (GetRepos req) ;;;
  writeBuckets w filename bucketURL.

End WithCollaborators.

(** What [NewWorker] calls outside this file. *)
Class Startup `{Collaborators} := {
  File : Type;
  Exporter : Type;
  Option : Type;
  (* collector.New(ctx, logger, collectOpts...) *)
  collectorNew : list Option -> World -> (error + Collector) * World;
  (* os.Open(name) *)
  Open : string -> World -> (error + File) * World;
  (* f.Close(), whose error the deferred call drops *)
  Close : File -> World -> World;
  (* scorer.FromDefaultConfig() *)
  FromDefaultConfig : Scorer;
  (* scorer.NameFromFilepath(name) *)
  NameFromFilepath : string -> string;
  (* scorer.FromConfig(name, f): an error, or a scorer and a nil error *)
  FromConfig : string -> File -> World -> (error + Scorer) * World;
  (* s.Name() *)
  scorerName : Scorer -> string;
  (* monitoring.GetExporter() *)
  GetExporter : World -> (error + Exporter) * World;
  (* exporter.StartMetricsExporter() *)
  StartMetricsExporter : Exporter -> World -> option error * World;
  (* view.Register(...) of the four views *)
  viewRegister : World -> option error * World;
}.

Section WithStartup.
Context `{Startup}.

(** A computation on the world outside that returns an error or a value. *)
Definition IO (A : Type) : Type := World -> (error + A) * World.

Definition retIO {A : Type} (a : A) : IO A := fun world => (inr a, world).

Definition bindIO {A B : Type} (m : IO A) (k : A -> IO B) : IO B :=
  fun world =>
    match m world with
    | (inr a, world') => k a world'
    | (inl err, world') => (inl err, world')
    end.

(** [if err != nil { return nil, fmt.Errorf(format, err) }] around a call. *)
Definition wrapIO {A : Type} (format : string) (m : IO A) : IO A :=
  fun world =>
    match m world with
    | (inl err, world') => (inl (Errorf format err), world')
    | (inr a, world') => (inr a, world')
    end.

(** A call that returns only an error. *)
Definition check (call : World -> option error * World) : IO unit :=
  fun world =>
    match call world with
    | (Some err, world') => (inl err, world')
    | (None, world') => (inr tt, world')
    end.

Notation "x <- m ;; k" := (bindIO m (fun x => k))
  (at level 100, m at next level, right associativity).
Notation "m ;;; k" := (bindIO m (fun _ => k))
  (at level 100, right associativity).

(** The scorer is a pointer: [None] is nil, scoring disabled. *)
Definition getScorer (scoringEnabled : bool) (scoringConfigFile : string)
  : IO (option Scorer) :=
  if negb scoringEnabled then retIO None
  else if decide (scoringConfigFile = "") then retIO (Some FromDefaultConfig)
  else
    f <- wrapIO "opening config: %w" (Open scoringConfigFile) ;;
    fun world =>
      let '(res, world) :=
        wrapIO "from config: %w"
          (FromConfig (NameFromFilepath scoringConfigFile) f) world in
      (* defer f.Close() *)
      let world := Close f world in
      match res with
      | inl err => (inl err, world)
      | inr s => (inr (Some s), world)
      end.

Definition getMetricsExporter : IO Exporter :=
  exporter <- wrapIO "getting monitoring exporter: %w" GetExporter ;;
  wrapIO "starting exporter: %w" (check (StartMetricsExporter exporter)) ;;;
  wrapIO "opencensus view register: %w" (check viewRegister) ;;;
  retIO exporter.

(** The worker, and beside it the exporter that the source keeps in a
    field of the worker. *)
Definition NewWorker (scoringEnabled : bool)
  (scoringConfigFile scoringColumn csvBucketURL : string)
  (collectOpts : list Option) : IO (collectWorker * Exporter) :=
  c <- wrapIO "collector: %w" (collectorNew collectOpts) ;;
  s <- wrapIO "scorer: %w" (getScorer scoringEnabled scoringConfigFile) ;;
  let scoringColumn :=
    match s with
    | Some scorer =>
        if decide (scoringColumn = "") then scorerName scorer else scoringColumn
    | None => scoringColumn
    end in
  exporter <- wrapIO "metrics exporter: %w" getMetricsExporter ;;
  retIO ({| c := c; s := s; scoreColumnName := scoringColumn;
            csvBucketURL := csvBucketURL |}, exporter).

End WithStartup.

End worker.

(** * The vocabulary of the properties *)

Import errors algorithm wam.

(** ** Scoring *)

Section MeanVocabulary.
Context {F : Type} `{Float64 F}.

(** The inputs that have a value in the record, each with its raw value. *)
Definition present (inputs : list (Input F)) (record : gmap string F)
  : list (Input F * F) :=
  omap (fun i => match Source i record with
                 | Some v => Some (i, v)
                 | None => None
                 end) inputs.

(** A float64 sum, added up from the left starting at zero. *)
Definition fsum (l : list F) : F := foldl fadd f0 l.

Definition numerator (inputs : list (Input F)) (record : gmap string F) : F :=
  fsum (map (fun iv => fmul (Weight iv.1) (Normalize (Dist iv.1) iv.2))
            (present inputs record)).

Definition denominator (inputs : list (Input F)) (record : gmap string F) : F :=
  fsum (map (fun iv => Weight iv.1) (present inputs record)).

End MeanVocabulary.

(** The identity distribution, which is what the registry holds under
    "linear". *)
Definition identity : Distribution float :=
  {| name := "linear"; normalizeFn := fun v => v |}.

(** A distribution that is not the identity. *)
Definition halving : Distribution float :=
  {| name := "halving"; normalizeFn := fun v => PrimFloat.div v 2 |}.

Definition inputA : Input float :=
  {| Weight := 2%float; Dist := identity; Source := Field "A" |}.

Definition inputB : Input float :=
  {| Weight := 1%float; Dist := identity; Source := Field "B" |}.

(** ** The deps.dev source *)

Definition githubRepo : projectrepo.Repo :=
  {| projectrepo.URL :=
       {| url.Scheme := "https"; url.Host := "github.com";
          url.Path := "/ossf/criticality_score/" |} |}.

Definition gitlabRepo : projectrepo.Repo :=
  {| projectrepo.URL :=
       {| url.Scheme := "https"; url.Host := "gitlab.com";
          url.Path := "/ossf/criticality_score" |} |}.

(** A lookup that succeeds and finds no row, whatever the project. *)
Definition noRow (projectName projectType jobID : string)
  : Z * bool * option error :=
  (0%Z, false, None).

(** ** The collection worker *)

Section WorkerVocabulary.
Import worker.
Context `{Collaborators}.

(** [Process] up to the moment the loop has dealt with the repos [pre]:
    the two writers, and the state the loop is in. *)
Definition reaches (w : collectWorker) (req : ScorecardBatchRequest)
  (pre : list Repo) : M (Writer * Writer) :=
  bind (prepare w) (fun outs =>
  bind (processRepos w (GetJobTime req) (Format (GetJobTime req))
          outs.1 outs.2 pre) (fun _ =>
  ret outs)).

(** [Process] from the moment the loop turns to the repos [post]. *)
Definition resumes (w : collectWorker) (req : ScorecardBatchRequest)
  (bucketURL : string) (jsonOut csvOut : Writer) (post : list Repo) : M unit :=
  bind (processRepos w (GetJobTime req) (Format (GetJobTime req))
          jsonOut csvOut post) (fun _ =>
  writeBuckets w (ResultFilename req) bucketURL).

(** What [vcs.CommitID()] returns in state [σ]. *)
Definition currentCommitID (σ : state) : string :=
  (vcs.CommitID ReadBuildInfo (commitID σ)).1.

(** The extra columns of a worker whose commit ID is [id]: the score column
    if a scorer is configured, the collection date, and the commit ID column
    if [id] is not the missing sentinel. *)
Definition columns (w : collectWorker) (id : string) : list string :=
  match s w with Some _ => [scoreColumnName w] | None => [] end
  ++ [collectionDateColumnName]
  ++ (if decide (id = vcs.MissingCommitID) then [] else [commitIDColumnName]).

(** A call that writes a record with exactly the extra keys [extras], to
    the JSON writer or to the CSV writer made with [extras]. *)
Definition writesRecord (emptySets : list SignalSet) (extras : list string)
  (k : call) : Prop :=
  match k with
  | NewWriter _ => False
  | WriteSignalsCall out _ fields =>
      map signalio.Key fields = extras
      /\ (out = jsonWriter \/ out = csvWriter emptySets extras)
  end.

(** From [σ] to [σ'] the commit ID stayed what it was and every call made
    wrote a record with the extra keys [extras]. *)
Definition onlyWrites (emptySets : list SignalSet) (extras : list string)
  (σ σ' : state) : Prop :=
  currentCommitID σ' = currentCommitID σ
  /\ exists written,
       calls σ' = calls σ ++ written
       /\ Forall (writesRecord emptySets extras) written.

End WorkerVocabulary.

(** A small world to run the worker in: the world counts the calls of
    [Collect]; a URL is parsed as its path; "/gone/repo" is uncollectable,
    "/down/repo" cannot be reached, for "/lookalike/repo" the collector
    fails with an error of its own that has the text of the sentinel, every
    other repository is collected; the binary carries no build
    information. *)
Definition demo : worker.Collaborators := {|
  worker.World := nat;
  worker.SignalSet := string;
  worker.Collector := unit;
  worker.Scorer := unit;
  worker.uncollectableAddr := 2;
  worker.uncollectableText := "repo is uncollectable";
  worker.Collect := fun _ u _ n =>
    if decide (url.Path u = "/gone/repo")
    then (([], Some (Errorf "collecting: %w"
                       (errors.New 2 "repo is uncollectable"))), S n)
    else if decide (url.Path u = "/down/repo")
    then (([], Some (errors.New 11 "connection reset")), S n)
    else if decide (url.Path u = "/lookalike/repo")
    then (([], Some (errors.New 12 "repo is uncollectable")), S n)
    else ((["github"], None), S n);
  worker.EmptySets := fun _ => ["github"];
  worker.scoreText := fun _ _ => "0.50000";
  worker.Parse := fun rawURL =>
    if decide (rawURL = ":") then inl (errors.New 13 "missing protocol scheme")
    else inr {| url.Scheme := "https"; url.Host := "github.com";
                url.Path := rawURL |};
  worker.ReadBuildInfo := None;
  worker.ResultFilename := fun _ => "shard-0000000";
  worker.Format := fun _ => "20221007_000000";
  worker.jsonWriteSignals := fun _ _ => None;
  worker.csvWriteSignals := fun _ _ _ _ => None;
  worker.WriteToBlobStore := fun _ _ _ n => (None, n);
|}.

(** A worker with a scorer and no CSV bucket. *)
Definition demoWorker : worker.collectWorker (H:=demo) :=
  @worker.Build_collectWorker demo tt (Some tt) "default_score" "".

(** The state of a process that has called nothing yet. *)
Definition demoStart : worker.state (H:=demo) :=
  @worker.Build_state demo 0 "" [] [] [].

Definition demoJSON : worker.Writer (H:=demo) := @worker.jsonWriter demo.

Definition demoCSV : worker.Writer (H:=demo) :=
  @worker.csvWriter demo ["github"] ["default_score"; "collection_date"].

Definition scorecard : worker.Repo := {| worker.GetUrl := "/ossf/scorecard" |}.

Definition criticality : worker.Repo :=
  {| worker.GetUrl := "/ossf/criticality_score" |}.

(** A shard of three repositories, the second with the URL [rawURL]. *)
Definition shard (rawURL : string) : worker.ScorecardBatchRequest :=
  {| worker.GetRepos := [scorecard; {| worker.GetUrl := rawURL |}; criticality];
     worker.GetJobTime := 0%Z; worker.GetShardNum := 0%Z |}.

(** ** More on scoring *)

(** An input of weight zero. *)
Definition inputZero : Input float :=
  {| Weight := 0%float; Dist := identity; Source := Field "A" |}.

(** The accumulators of [Score] as long as every input met so far was
    absent or had weight zero: the sum is [+0] or NaN, the count is [+0]. *)
Definition degenerate (acc : float * float) : Prop :=
  (Prim2SF acc.1 = S754_zero false \/ Prim2SF acc.1 = S754_nan)
  /\ Prim2SF acc.2 = S754_zero false.

(** ** Strings *)

Definition firstByte (s : string) : option ascii :=
  match s with
  | String.String a _ => Some a
  | EmptyString => None
  end.

Fixpoint lastByte (s : string) : option ascii :=
  match s with
  | EmptyString => None
  | String.String a EmptyString => Some a
  | String.String _ rest => lastByte rest
  end.

(** The character [c] occurs in [s]. *)
Fixpoint hasByte (c : ascii) (s : string) : bool :=
  match s with
  | EmptyString => false
  | String.String a rest => if decide (a = c) then true else hasByte c rest
  end.

(** [strings.Join(pieces, sep)] for a separator of one character. *)
Fixpoint Join (pieces : list string) (sep : ascii) : string :=
  match pieces with
  | [] => EmptyString
  | [piece] => piece
  | piece :: rest => piece +:+ String.String sep (Join rest sep)
  end.

(** ** Build information *)

(** A binary stamped with two revisions, and one stamped with none. *)
Definition stampedTwice : vcs.BuildInfo :=
  {| vcs.Settings :=
       [ {| vcs.Key := "vcs"; vcs.Value := "git" |};
         {| vcs.Key := "vcs.revision"; vcs.Value := "0a1b2c3" |};
         {| vcs.Key := "vcs.revision"; vcs.Value := "ffffff" |} ] |}.

Definition unstamped : vcs.BuildInfo :=
  {| vcs.Settings := [ {| vcs.Key := "vcs"; vcs.Value := "git" |} ] |}.

(** ** The basic repository query *)

(** The variables [queryBasicRepoData] sends for an owner and a name when
    the clock shows [now]. *)
Definition queryVariables (now : Z) (owner name : string)
  : gmap string github.variable :=
  {[ "repositoryOwner" := github.GraphqlString owner;
     "repositoryName" := github.GraphqlString name;
     "legacyCommitLookback" := github.GitTimestamp (now - 31536000000000000) ]}.

Definition ownerOrName (v : github.variable) : option string :=
  match v with
  | github.GraphqlString s => Some s
  | github.GitTimestamp _ => None
  end.

(** A client that knows one repository. *)
Definition oneRepository (vars : gmap string github.variable)
  : error + github.basicRepoData :=
  if decide (vars !! "repositoryOwner" ≫= ownerOrName = Some "ossf"
             /\ vars !! "repositoryName" ≫= ownerOrName
                = Some "criticality_score")
  then inr {| github.Name := "criticality_score";
              github.URL := "https://github.com/ossf/criticality_score";
              github.MirrorURL := ""; github.OwnerLogin := "ossf";
              github.LicenseInfoName := "Apache License 2.0";
              github.PrimaryLanguageName := "Go";
              github.CreatedAt := 0; github.UpdatedAt := 0;
              github.AuthoredDate := 0; github.RecentCommitsTotalCount := 120;
              github.StargazerCount := 1200; github.HasIssuesEnabled := true;
              github.IsArchived := false; github.IsDisabled := false;
              github.IsEmpty := false; github.IsMirror := false;
              github.WatchersTotalCount := 40; github.TagsTotalCount := 12 |}
  else inl (errors.New 14 "Could not resolve to a Repository").

Definition treeURL : url.URL :=
  {| url.Scheme := "https"; url.Host := "github.com";
     url.Path := "/ossf/criticality_score/tree/main/" |}.

(** ** More on the collection worker *)

Section MoreWorkerVocabulary.
Import worker.
Context `{Collaborators}.

(** The repositories the loop of [Process] hands to the collector: the URL
    is not empty and parses. *)
Definition wellFormed (repo : Repo) : bool :=
  negb (bool_decide (GetUrl repo = ""))
  && match Parse (GetUrl repo) with
     | inr _ => true
     | inl _ => false
     end.

(** The JSON buffer holds the rows of the CSV buffer, or these and one row
    more. *)
Definition inStep (σ : state) : Prop :=
  jsonOutput σ = csvOutput σ
  \/ exists row, jsonOutput σ = csvOutput σ ++ [row].

(** The formats [Process] wraps an error with. *)
Definition processFormats : list string :=
  [ "failed during signal collection: %w";
    "failed writing signals: %w";
    "error writing csv to blob store: %w";
    "error writing json to blob store: %w" ].

Definition wrapped (formats : list string) (err : error) : Prop :=
  exists format cause, err = Errorf format cause /\ format ∈ formats.

End MoreWorkerVocabulary.

(** The shard of [shard ""] without its malformed entry. *)
Definition cleanShard : worker.ScorecardBatchRequest :=
  {| worker.GetRepos := [scorecard; criticality];
     worker.GetJobTime := 0%Z; worker.GetShardNum := 0%Z |}.

(** ** Starting the worker *)

(** A start-up in the small world: the collector and the exporter always
    come up, the configuration file "missing.yml" cannot be opened, every
    other file holds a valid configuration. *)
Definition demoStartup : worker.Startup (H:=demo) :=
  @worker.Build_Startup demo
    string unit unit
    (* collectorNew *) (fun _ n => (inr tt, n))
    (* Open *)
    (fun name n =>
       if decide (name = "missing.yml")
       then (inl (errors.New 15 "no such file or directory"), n)
       else (inr name, n))
    (* Close *) (fun _ n => n)
    (* FromDefaultConfig *) tt
    (* NameFromFilepath *) (fun name => name)
    (* FromConfig *) (fun _ _ n => (inr tt, n))
    (* scorerName *) (fun _ => "default_score")
    (* GetExporter *) (fun n => (inr tt, n))
    (* StartMetricsExporter *) (fun _ n => (None, n))
    (* viewRegister *) (fun n => (None, n)).

Section RecordVocabulary.
Import worker.
Context `{Collaborators}.

(** The extra fields of the record of the signals [ss]: the score of [ss]
    if the worker scores, the job time, and the commit ID unless it is
    missing. *)
Definition extraFields (w : collectWorker) (jobTime : Z) (id : string)
  (ss : list SignalSet) : list signalio.Field :=
  match s w with
  | Some scorer =>
      [{| signalio.Key := scoreColumnName w;
          signalio.Value := signalio.StringValue (scoreText scorer ss) |}]
  | None => []
  end
  ++ [{| signalio.Key := collectionDateColumnName;
         signalio.Value := signalio.TimeValue jobTime |}]
  ++ (if decide (id = vcs.MissingCommitID) then []
      else [{| signalio.Key := commitIDColumnName;
               signalio.Value := signalio.StringValue id |}]).

(** A call that, if it writes a record, writes it with these extra
    fields. *)
Definition carries (w : collectWorker) (jobTime : Z) (id : string)
  (k : call) : Prop :=
  match k with
  | NewWriter _ => True
  | WriteSignalsCall _ ss fields => fields = extraFields w jobTime id ss
  end.

(** From [σ] to [σ'] the commit ID stayed what it was and the calls made
    carried these extra fields. *)
Definition carrying (w : collectWorker) (jobTime : Z) (id : string)
  (σ σ' : state) : Prop :=
  currentCommitID σ' = currentCommitID σ
  /\ exists made,
       calls σ' = calls σ ++ made /\ Forall (carries w jobTime id) made.

End RecordVocabulary.

(** * Properties *)

(** ** Errors *)

Lemma Is_refl (err : error) : Is err err = true.
Proof. destruct err; cbn [Is]; by rewrite decide_True. Qed.

Lemma Errorf_neq (format : string) (err : error) : Errorf format err <> err.
Proof.
  intros Hcycle. apply (f_equal depth) in Hcycle. cbn [depth] in Hcycle. lia.
Qed.

(** A value of another call of [errors.New] does not match. *)
Lemma Is_other_New (addr : positive) (text : string) (addr' : positive)
  (text' : string) :
  addr <> addr' -> Is (errors.New addr text) (errors.New addr' text') = false.
Proof. intros Haddr. cbn [Is]. rewrite decide_False; congruence. Qed.

(** An error wrapped with [%w] still matches what it wraps. *)
Lemma Is_Errorf (format : string) (err : error) :
  Is (Errorf format err) err = true.
Proof.
  cbn [Is]. rewrite decide_False by apply Errorf_neq. apply Is_refl.
Qed.

(** ** The weighted arithmetic mean *)

Section Mean.
Context {F : Type} `{Float64 F}.

Lemma present_cons_Some record i (inputs : list (Input F)) v :
  Source i record = Some v ->
  present (i :: inputs) record = (i, v) :: present inputs record.
Proof. intros Hv. unfold present. simpl. by rewrite Hv. Qed.

Lemma present_cons_None record i (inputs : list (Input F)) :
  Source i record = None ->
  present (i :: inputs) record = present inputs record.
Proof. intros Hv. unfold present. simpl. by rewrite Hv. Qed.

Lemma accumulate_absent record acc (i : Input F) :
  Source i record = None -> accumulate record acc i = acc.
Proof.
  intros Habs. destruct acc as [s c]. unfold accumulate, Value.
  by rewrite Habs.
Qed.

Lemma accumulate_present record s c (i : Input F) v :
  Source i record = Some v ->
  accumulate record (s, c) i
  = (fadd s (fmul (Weight i) (Normalize (Dist i) v)), fadd c (Weight i)).
Proof. intros Hv. unfold accumulate, Value. by rewrite Hv. Qed.

(** The loop of [Score], started from any pair of accumulators. *)
Lemma foldl_accumulate record (inputs : list (Input F)) s c :
  foldl (accumulate record) (s, c) inputs
  = (foldl fadd s (map (fun iv => fmul (Weight iv.1) (Normalize (Dist iv.1) iv.2))
                       (present inputs record)),
     foldl fadd c (map (fun iv => Weight iv.1) (present inputs record))).
Proof.
  revert s c. induction inputs as [|i inputs IH]; intros s c; [done|].
  cbn [foldl].
  destruct (Source i record) as [v|] eqn:Hv.
  - rewrite (accumulate_present _ _ _ _ _ Hv), IH, (present_cons_Some _ _ _ _ Hv).
    reflexivity.
  - rewrite (accumulate_absent _ _ _ Hv), IH, (present_cons_None _ _ _ Hv).
    reflexivity.
Qed.

Lemma Score_quotient (p : WeightedArithmeticMean F) record :
  Score p record
  = fdiv (numerator (inputs p) record) (denominator (inputs p) record).
Proof. unfold Score. by rewrite foldl_accumulate. Qed.

Lemma foldl_accumulate_skip record (pre post : list (Input F)) i acc :
  Source i record = None ->
  foldl (accumulate record) acc (pre ++ i :: post)
  = foldl (accumulate record) acc (pre ++ post).
Proof.
  intros Habs. rewrite !foldl_app. cbn [foldl].
  by rewrite (accumulate_absent _ _ _ Habs).
Qed.

Lemma Score_skip record (pre post : list (Input F)) i :
  Source i record = None ->
  Score {| inputs := pre ++ i :: post |} record
  = Score {| inputs := pre ++ post |} record.
Proof.
  intros Habs. unfold Score. cbn [wam.inputs].
  by rewrite (foldl_accumulate_skip _ _ _ _ _ Habs).
Qed.

Lemma foldl_accumulate_all_absent record (inputs : list (Input F)) acc :
  Forall (fun i => Value i record = None) inputs ->
  foldl (accumulate record) acc inputs = acc.
Proof.
  intros Hall. revert acc.
  induction Hall as [|i inputs Hi _ IH]; intros acc; [done|].
  cbn [foldl]. destruct acc as [s c]. unfold accumulate at 2.
  rewrite Hi. apply IH.
Qed.

End Mean.

(** C1. The score is the float64 sum of [weight * Normalize value] over the
    inputs that have a value in the record, divided by the float64 sum of the
    weights of those same inputs, both sums taken in input order; with A of
    weight 2 and B of weight 1, both normalized by the identity, the record
    A=10, B=4 scores 8.0 and the record A=10 scores 10.0. *)
Theorem Score_is_weighted_mean :
  (forall (F : Type) (FF : Float64 F)
          (p : WeightedArithmeticMean F) (record : gmap string F),
     Score p record
     = fdiv (numerator (inputs p) record) (denominator (inputs p) record))
  /\ Score {| inputs := [inputA; inputB] |}
           {[ "A" := 10%float; "B" := 4%float ]} = 8%float
  /\ Score {| inputs := [inputA; inputB] |} {[ "A" := 10%float ]} = 10%float.
Proof.
  split; [intros; apply Score_quotient|].
  split; vm_compute; reflexivity.
Qed.

(** C2. An input whose field is unset in the record is left out of the score:
    whatever weight and distribution it is given, the score is the one of the
    input list without it. *)
Theorem Score_ignores_absent_input
  {F : Type} `{Float64 F} (record : gmap string F)
  (pre post : list (Input F)) (i : Input F) :
  Source i record = None ->
  forall (weight : F) (dist : Distribution F),
    let i' := {| Weight := weight; Dist := dist; Source := Source i |} in
    Score {| inputs := pre ++ i' :: post |} record
    = Score {| inputs := pre ++ i :: post |} record
    /\ Score {| inputs := pre ++ i :: post |} record
       = Score {| inputs := pre ++ post |} record.
Proof.
  intros Habs weight dist i'. split.
  - rewrite (Score_skip record pre post i Habs).
    apply Score_skip. exact Habs.
  - apply Score_skip. exact Habs.
Qed.

Lemma Score_ignores_absent_input_witness :
  Source inputB ({[ "A" := 10%float ]} : gmap string float) = None
  /\ Score {| inputs := [inputA]
                ++ {| Weight := 7%float; Dist := halving; Source := Source inputB |}
                :: [] |} {[ "A" := 10%float ]}
     = Score {| inputs := [inputA] ++ inputB :: [] |} {[ "A" := 10%float ]}
  /\ Score {| inputs := [inputA] ++ inputB :: [] |} {[ "A" := 10%float ]}
     = Score {| inputs := [inputA] ++ [] |} {[ "A" := 10%float ]}.
Proof.
  split; [vm_compute; reflexivity|].
  apply (Score_ignores_absent_input
           ({[ "A" := 10%float ]} : gmap string float) [inputA] [] inputB).
  vm_compute; reflexivity.
Defined.

(** C3. When no configured input has a value in the record the score is
    [0/0], which in binary64 is NaN: not finite, and different from [0.0]
    both as a value and under the float comparison [==]. *)
Theorem Score_without_present_input_is_NaN
  (inputs : list (Input float)) (record : gmap string float) :
  Forall (fun i => Value i record = None) inputs ->
  let score := Score {| inputs := inputs |} record in
  PrimFloat.is_nan score = true
  /\ PrimFloat.is_finite score = false
  /\ PrimFloat.eqb score 0%float = false
  /\ score <> 0%float.
Proof.
  intros Hall score.
  assert (Hscore : score = PrimFloat.div 0 0).
  { unfold score, Score. cbn [wam.inputs].
    by rewrite (foldl_accumulate_all_absent _ _ _ Hall). }
  rewrite Hscore. repeat split; try (vm_compute; reflexivity).
  intros Heq. apply (f_equal PrimFloat.is_nan) in Heq.
  vm_compute in Heq. discriminate.
Qed.

Lemma Score_without_present_input_is_NaN_witness :
  Forall (fun i => Value i (∅ : gmap string float) = None) [inputA; inputB]
  /\ PrimFloat.is_nan (Score {| inputs := [inputA; inputB] |} ∅) = true
  /\ PrimFloat.is_finite (Score {| inputs := [inputA; inputB] |} ∅) = false
  /\ PrimFloat.eqb (Score {| inputs := [inputA; inputB] |} ∅) 0%float = false
  /\ Score {| inputs := [inputA; inputB] |} ∅ <> 0%float.
Proof.
  assert (Hall : Forall (fun i => Value i (∅ : gmap string float) = None)
                        [inputA; inputB]).
  { repeat constructor. }
  split; [exact Hall|].
  exact (Score_without_present_input_is_NaN [inputA; inputB] ∅ Hall).
Defined.

(** ** The distribution registry *)

Section Registry.
Context {F : Type} `{Float64 F} `{MathLog F}.

Lemma normalizationFuncs_dom :
  dom (normalizationFuncs (F:=F)) = {[ "linear"; "zapfian" ]}.
Proof.
  unfold normalizationFuncs. rewrite dom_insert_L, dom_singleton_L. done.
Qed.

Lemma LookupDistribution_linear :
  LookupDistribution (F:=F) "linear"
  = Some {| name := "linear"; normalizeFn := fun v => v |}.
Proof.
  unfold LookupDistribution, normalizationFuncs.
  by rewrite lookup_insert_eq.
Qed.

Lemma LookupDistribution_zapfian :
  LookupDistribution (F:=F) "zapfian"
  = Some {| name := "zapfian"; normalizeFn := fun v => Log (fadd f1 v) |}.
Proof.
  unfold LookupDistribution, normalizationFuncs.
  rewrite lookup_insert_ne by done. by rewrite lookup_singleton_eq.
Qed.

Lemma LookupDistribution_Some (name : string) :
  is_Some (normalizationFuncs (F:=F) !! name) ->
  exists d, LookupDistribution (F:=F) name = Some d /\ String d = name.
Proof.
  intros [fn Hfn]. unfold LookupDistribution. rewrite Hfn.
  eexists. split; reflexivity.
Qed.

Lemma LookupDistribution_None (name : string) :
  normalizationFuncs (F:=F) !! name = None ->
  LookupDistribution (F:=F) name = None.
Proof. intros Hfn. unfold LookupDistribution. by rewrite Hfn. Qed.

End Registry.


(** C5. Looking up a registered name gives a distribution that carries that
    name; looking up any other name gives nil. *)
Theorem LookupDistribution_by_name
  {F : Type} `{Float64 F} `{MathLog F} (name : string) :
  (name ∈ dom (normalizationFuncs (F:=F)) ->
   exists d : Distribution F,
     LookupDistribution name = Some d /\ String d = name)
  /\ (name ∉ dom (normalizationFuncs (F:=F)) ->
      LookupDistribution (F:=F) name = None).
Proof.
  split.
  - intros Hin. apply LookupDistribution_Some. by apply elem_of_dom.
  - intros Hout. apply LookupDistribution_None. by apply not_elem_of_dom.
Qed.

Lemma LookupDistribution_by_name_witness :
  (exists d : Distribution R,
     LookupDistribution "zapfian" = Some d /\ String d = "zapfian")
  /\ LookupDistribution (F:=R) "logarithmic" = None.
Proof.
  split.
  - apply (proj1 (LookupDistribution_by_name (F:=R) "zapfian")).
    rewrite normalizationFuncs_dom.
    apply elem_of_union_r, elem_of_singleton. reflexivity.
  - apply (proj2 (LookupDistribution_by_name (F:=R) "logarithmic")).
    rewrite normalizationFuncs_dom.
    intros [Hlin|Hzap]%elem_of_union;
      apply elem_of_singleton in Hlin || apply elem_of_singleton in Hzap;
      discriminate.
Defined.

(** ** The output-format selector *)

Section WriterTypeText.
Import signalio.

Lemma MarshalText_defined (t : WriterType) (text : string) :
  MarshalText t = (text, None) ->
  (t = WriterTypeCSV /\ text = "csv")
  \/ (t = WriterTypeJSON /\ text = "json")
  \/ (t = WriterTypeText /\ text = "text").
Proof.
  unfold MarshalText. intros Hm.
  repeat case_decide; simplify_eq; auto.
Qed.

Lemma UnmarshalText_unknown (t : WriterType) (text : string) :
  text <> "csv" -> text <> "json" -> text <> "text" ->
  UnmarshalText t text = (t, Some ErrorUnknownWriterType).
Proof.
  intros Hcsv Hjson Htext. unfold UnmarshalText.
  repeat case_decide; congruence.
Qed.

Lemma MarshalText_unknown (t : WriterType) :
  t <> WriterTypeCSV -> t <> WriterTypeJSON -> t <> WriterTypeText ->
  MarshalText t = ("", Some ErrorUnknownWriterType).
Proof.
  intros Hcsv Hjson Htext. unfold MarshalText.
  repeat case_decide; congruence.
Qed.

(** C8. Each of "csv", "json" and "text" is the text of a selector; a text
    that [MarshalText] produced is read back by [UnmarshalText] as a selector
    with the same text; a string that is none of the three, and a selector
    that is none of the three, fail with [ErrorUnknownWriterType]. *)
Theorem WriterType_text_round_trip :
  (forall name : string, name ∈ ["csv"; "json"; "text"] ->
     exists t : WriterType, MarshalText t = (name, None))
  /\ (forall (t t0 : WriterType) (text : string),
        MarshalText t = (text, None) ->
        exists t' : WriterType,
          UnmarshalText t0 text = (t', None)
          /\ MarshalText t' = (text, None)
          /\ String t' = String t)
  /\ (forall (t0 : WriterType) (text : string),
        text ∉ ["csv"; "json"; "text"] ->
        exists err : error,
          UnmarshalText t0 text = (t0, Some err)
          /\ Is err ErrorUnknownWriterType = true)
  /\ (forall t : WriterType,
        t ∉ [WriterTypeCSV; WriterTypeJSON; WriterTypeText] ->
        exists err : error,
          MarshalText t = ("", Some err)
          /\ Is err ErrorUnknownWriterType = true).
Proof.
  split; [|split; [|split]].
  - intros name Hname.
    repeat (apply elem_of_cons in Hname as [->|Hname]);
      [by exists WriterTypeCSV | by exists WriterTypeJSON
      | by exists WriterTypeText | by apply elem_of_nil in Hname].
  - intros t t0 text Hm.
    destruct (MarshalText_defined t text Hm) as [[-> ->]|[[-> ->]|[-> ->]]];
      eexists; (split; [reflexivity|split; reflexivity]).
  - intros t0 text Hout. exists ErrorUnknownWriterType. split; [|reflexivity].
    apply UnmarshalText_unknown; intros ->; apply Hout; set_unfold; tauto.
  - intros t Hout. exists ErrorUnknownWriterType. split; [|reflexivity].
    apply MarshalText_unknown; intros ->; apply Hout; set_unfold; tauto.
Qed.

Lemma WriterType_text_round_trip_witness :
  (exists t' : WriterType,
     UnmarshalText 0%Z "json" = (t', None)
     /\ MarshalText t' = ("json", None)
     /\ String t' = String WriterTypeJSON)
  /\ (exists err : error,
        UnmarshalText 7%Z "yaml" = (7%Z, Some err)
        /\ Is err ErrorUnknownWriterType = true)
  /\ (exists err : error,
        MarshalText 10%Z = ("", Some err)
        /\ Is err ErrorUnknownWriterType = true).
Proof.
  destruct WriterType_text_round_trip as (_ & Hround & Hunmarshal & Hmarshal).
  split; [|split].
  - apply (Hround WriterTypeJSON 0%Z "json"). reflexivity.
  - apply (Hunmarshal 7%Z "yaml").
    intros Hin. repeat (apply elem_of_cons in Hin as [Heq|Hin]; [discriminate|]).
    by apply elem_of_nil in Hin.
  - apply (Hmarshal 10%Z).
    intros Hin. repeat (apply elem_of_cons in Hin as [Heq|Hin]; [discriminate|]).
    by apply elem_of_nil in Hin.
Defined.

End WriterTypeText.

(** ** The deps.dev source *)

Example Trim_slashes :
  gostrings.Trim "//ossf/criticality_score/" "/"%char = "ossf/criticality_score"
  /\ gostrings.Trim "///" "/"%char = "".
Proof. split; reflexivity. Qed.

Example Get_found :
  depsdev.Get url.Host
    (fun projectName _ _ =>
       if decide (projectName = "ossf/criticality_score")
       then (17%Z, true, None) else (0%Z, false, None))
    githubRepo "20221007_000000"
  = (Some {| depsdev.DependentCount := Some 17%Z |}, None).
Proof. reflexivity. Qed.

Section DepsDev.
Import depsdev.
Variable Hostname : url.URL -> string.
Variable Count : string -> string -> string -> Z * bool * option error.

Lemma parseRepoURL_github (u : url.URL) :
  Hostname u = "github.com" ->
  parseRepoURL Hostname u = (gostrings.Trim (url.Path u) "/"%char, "GITHUB").
Proof. intros Hhn. unfold parseRepoURL. by rewrite decide_True. Qed.

Lemma parseRepoURL_other (u : url.URL) :
  Hostname u <> "github.com" -> parseRepoURL Hostname u = ("", "").
Proof. intros Hhn. unfold parseRepoURL. by rewrite decide_False. Qed.

Lemma Get_other (r : projectrepo.Repo) (jobID : string) :
  Hostname (projectrepo.URL r) <> "github.com" ->
  Get Hostname Count r jobID = (Some EmptySet, None).
Proof.
  intros Hhn. unfold Get. by rewrite (parseRepoURL_other _ Hhn).
Qed.

Lemma Get_github (r : projectrepo.Repo) (jobID : string) :
  Hostname (projectrepo.URL r) = "github.com" ->
  Get Hostname Count r jobID
  = match Count (gostrings.Trim (url.Path (projectrepo.URL r)) "/"%char)
                "GITHUB" jobID with
    | (_, _, Some err) =>
        (None, Some (Errorf "failed to fetch deps.dev dependent count: %w" err))
    | (deps, found, None) =>
        (Some {| DependentCount := if found then Some deps else None |}, None)
    end.
Proof.
  intros Hhn. unfold Get. rewrite (parseRepoURL_github _ Hhn).
  rewrite decide_False by discriminate.
  destruct (Count _ _ _) as [[deps found] [err|]]; [done|].
  by destruct found.
Qed.

End DepsDev.

(** C9. [Get] of the deps.dev source returns a set with [dependent_count]
    set exactly when the repository is on github.com and the lookup succeeds
    and finds a row, the field then holding the count found; a lookup that
    succeeds without a row leaves the field unset, and a URL of another host
    gives the all-unset set with a nil error. *)
Theorem depsdev_Get_sets_count_iff_found
  (Hostname : url.URL -> string)
  (Count : string -> string -> string -> Z * bool * option error)
  (r : projectrepo.Repo) (jobID : string) :
  let lookup :=
    Count (gostrings.Trim (url.Path (projectrepo.URL r)) "/"%char)
          "GITHUB" jobID in
  (forall s : depsdev.depsDevSet,
     depsdev.Get Hostname Count r jobID = (Some s, None) ->
     forall deps : Z,
       depsdev.DependentCount s = Some deps
       <-> Hostname (projectrepo.URL r) = "github.com"
           /\ lookup = (deps, true, None))
  /\ (Hostname (projectrepo.URL r) = "github.com" ->
      forall deps : Z, lookup = (deps, false, None) ->
      depsdev.Get Hostname Count r jobID
      = (Some {| depsdev.DependentCount := None |}, None))
  /\ (Hostname (projectrepo.URL r) <> "github.com" ->
      depsdev.Get Hostname Count r jobID
      = (Some {| depsdev.DependentCount := None |}, None)).
Proof.
  intros lookup. split; [|split].
  - intros s Hget deps.
    destruct (decide (Hostname (projectrepo.URL r) = "github.com")) as [Hhn|Hhn].
    + rewrite (Get_github _ _ _ _ Hhn) in Hget. fold lookup in Hget.
      destruct lookup as [[deps' found] [err|]]; [discriminate|].
      injection Hget as <-. cbn [depsdev.DependentCount].
      destruct found; split.
      * intros [= ->]. done.
      * intros [_ [= ->]]. done.
      * discriminate.
      * intros [_ [=]].
    + rewrite (Get_other _ _ _ _ Hhn) in Hget. injection Hget as <-.
      split; [discriminate|]. intros [Hgh _]. contradiction.
  - intros Hhn deps Hlookup. rewrite (Get_github _ _ _ _ Hhn).
    fold lookup. by rewrite Hlookup.
  - intros Hhn. apply Get_other. exact Hhn.
Qed.

Lemma depsdev_Get_sets_count_iff_found_witness :
  depsdev.Get url.Host noRow githubRepo "20221007_000000"
  = (Some {| depsdev.DependentCount := None |}, None)
  /\ depsdev.Get url.Host noRow gitlabRepo "20221007_000000"
     = (Some {| depsdev.DependentCount := None |}, None).
Proof.
  destruct (depsdev_Get_sets_count_iff_found
              url.Host noRow githubRepo "20221007_000000") as (_ & Hnone & _).
  destruct (depsdev_Get_sets_count_iff_found
              url.Host noRow gitlabRepo "20221007_000000") as (_ & _ & Hother).
  split.
  - apply (Hnone eq_refl 0%Z). reflexivity.
  - apply Hother. discriminate.
Defined.

(** ** The GitHub mentions source *)

(** C10. The mentions source supports every repository, and its [Get]
    returns either the nil set with the error of the commit search, or a set
    whose [MentionCount] is set (to the total of the search) with a nil
    error, and nothing else. *)
Theorem githubmentions_Get_all_or_nothing
  (SearchCommits : string -> option githubmentions.CommitsSearchResult * option error)
  (r : projectrepo.Repo) (jobID : string) :
  let search :=
    SearchCommits
      (githubmentions.quote
       +:+ gostrings.Trim (url.Path (projectrepo.URL r)) "/"%char
       +:+ githubmentions.quote) in
  githubmentions.IsSupported r = true
  /\ match githubmentions.Get SearchCommits r jobID with
     | (None, Some err) => search.2 = Some err
     | (Some s, None) =>
         search.2 = None
         /\ githubmentions.MentionCount s
            = Some (githubmentions.GetTotal search.1)
     | (None, None) | (Some _, Some _) => False
     end.
Proof.
  intros search. split; [reflexivity|].
  unfold githubmentions.Get, githubmentions.githubSearchTotalCommitMentions.
  fold search. destruct search as [commits [err|]]; cbn [fst snd]; done.
Qed.

(** ** The collection worker *)

Example CommitID_of_a_stamped_binary :
  vcs.CommitID
    (Some {| vcs.Settings := [ {| vcs.Key := "vcs"; vcs.Value := "git" |};
                               {| vcs.Key := "vcs.revision";
                                  vcs.Value := "0a1b2c3" |} ] |}) ""
  = ("0a1b2c3", "0a1b2c3").
Proof. reflexivity. Qed.

Example Is_through_two_wrappers :
  Is (Errorf "collector: %w"
        (Errorf "github: %w" (worker.ErrUncollectableRepo (H:=demo))))
     (worker.ErrUncollectableRepo (H:=demo)) = true
  /\ Is (errors.New 11 "connection reset")
        (worker.ErrUncollectableRepo (H:=demo)) = false.
Proof. split; reflexivity. Qed.

(** A second [errors.New] with the text of the sentinel is not the
    sentinel, bare or wrapped. *)
Example Is_not_by_text :
  Is (errors.New 12 "repo is uncollectable")
     (worker.ErrUncollectableRepo (H:=demo)) = false
  /\ Is (Errorf "collector: %w" (errors.New 12 "repo is uncollectable"))
        (worker.ErrUncollectableRepo (H:=demo)) = false.
Proof. split; reflexivity. Qed.

(** The shard with an uncollectable repository in the middle: two rows in
    each buffer, three calls of [Collect], no error. *)
Example Process_demo_shard :
  let '(result, σ) :=
    worker.Process (H:=demo) demoWorker (shard "/gone/repo") "bucket" demoStart in
  result = inr tt
  /\ length (worker.jsonOutput σ) = 2
  /\ length (worker.csvOutput σ) = 2
  /\ worker.world σ = 3.
Proof. vm_compute. repeat split; reflexivity. Qed.

Section Worker.
Import worker.
Context `{Collaborators}.

Lemma wrap_state {A : Type} (format : string) (m : M A) (σ : state) :
  (wrap format m σ).2 = (m σ).2.
Proof. unfold wrap. by destruct (m σ) as [[err|a] σ']. Qed.

(** The loop over a batch is the loop over its first part and, when that
    returned no error, the loop over the rest. *)
Lemma processRepos_app w jobTime jobID jsonOut csvOut pre post σ :
  processRepos w jobTime jobID jsonOut csvOut (pre ++ post) σ
  = bind (processRepos w jobTime jobID jsonOut csvOut pre)
         (fun _ => processRepos w jobTime jobID jsonOut csvOut post) σ.
Proof.
  revert σ. induction pre as [|repo pre IH]; intros σ; [done|].
  cbn [app processRepos]. unfold bind.
  destruct (processRepo w jobTime jobID jsonOut csvOut repo σ) as [[err|[]] σ'];
    [done|].
  rewrite IH. reflexivity.
Qed.

(** The ways a repository can leave the loop body without a row. *)
Lemma processRepo_empty w jobTime jobID jsonOut csvOut repo σ :
  GetUrl repo = "" ->
  processRepo w jobTime jobID jsonOut csvOut repo σ = (inr tt, σ).
Proof. intros Hurl. unfold processRepo. by rewrite decide_True. Qed.

Lemma processRepo_unparseable w jobTime jobID jsonOut csvOut repo σ err :
  Parse (GetUrl repo) = inl err ->
  processRepo w jobTime jobID jsonOut csvOut repo σ = (inr tt, σ).
Proof.
  intros Hparse. unfold processRepo. case_decide; [done|]. by rewrite Hparse.
Qed.

Lemma processRepo_collect_error w jobTime jobID jsonOut csvOut repo σ
  u ss err world' :
  GetUrl repo <> "" ->
  Parse (GetUrl repo) = inr u ->
  Collect (c w) u jobID (world σ) = ((ss, Some err), world') ->
  processRepo w jobTime jobID jsonOut csvOut repo σ
  = if Is err ErrUncollectableRepo
    then (inr tt, setWorld world' σ)
    else (inl (Errorf "failed during signal collection: %w" err),
          setWorld world' σ).
Proof.
  intros Hurl Hparse Hcollect. unfold processRepo.
  rewrite decide_False by done. rewrite Hparse.
  unfold bind, collect. rewrite Hcollect.
  by destruct (Is err ErrUncollectableRepo).
Qed.

(** [Process], cut at the repository the loop has reached. *)
Lemma Process_split w req bucketURL pre repo post jsonOut csvOut σ0 σ :
  GetRepos req = pre ++ repo :: post ->
  reaches w req pre σ0 = (inr (jsonOut, csvOut), σ) ->
  Process w req bucketURL σ0
  = match processRepo w (GetJobTime req) (Format (GetJobTime req))
                      jsonOut csvOut repo σ with
    | (inr _, σ') => resumes w req bucketURL jsonOut csvOut post σ'
    | (inl err, σ') => (inl err, σ')
    end.
Proof.
  intros Hrepos Hreach. unfold Process, reaches, resumes in *.
  rewrite Hrepos. unfold bind in Hreach |- *.
  destruct (prepare w σ0) as [[err|[jsonOut' csvOut']] σ1]; [discriminate|].
  cbn [fst snd] in Hreach. rewrite processRepos_app. unfold bind.
  destruct (processRepos _ _ _ _ _ pre σ1) as [[err|[]] σ2]; [discriminate|].
  unfold ret in Hreach. injection Hreach as -> -> ->.
  cbn [processRepos]. unfold bind.
  by destruct (processRepo _ _ _ _ _ repo σ) as [[err|[]] σ'].
Qed.

(** C6. When the loop of [Process] comes to a repository whose URL is empty
    or does not parse, or for which [Collect] fails with an error that is
    [ErrUncollectableRepo], the loop body ends without an error in a state in
    which no row was written and no call into signalio was made, and
    [Process] goes on with the repositories after it; when [Collect] fails
    with any other error, [Process] returns at once with that error wrapped:
    no row is written for the repository, the rest of the shard is not
    visited and no bucket is written.  An error is [ErrUncollectableRepo]
    when it is that value or wraps it; an error made by another call of
    [errors.New] is another error, also when it has the same text. *)
Theorem Process_skips_or_aborts
  (w : collectWorker) (req : ScorecardBatchRequest) (bucketURL : string)
  (pre post : list Repo) (repo : Repo) (jsonOut csvOut : Writer)
  (σ0 σ : state) :
  GetRepos req = pre ++ repo :: post ->
  reaches w req pre σ0 = (inr (jsonOut, csvOut), σ) ->
  let body :=
    processRepo w (GetJobTime req) (Format (GetJobTime req)) jsonOut csvOut repo in
  ((GetUrl repo = "" \/ exists err, Parse (GetUrl repo) = inl err) ->
   body σ = (inr tt, σ)
   /\ Process w req bucketURL σ0 = resumes w req bucketURL jsonOut csvOut post σ)
  /\ (forall u ss err world',
        GetUrl repo <> "" ->
        Parse (GetUrl repo) = inr u ->
        Collect (c w) u (Format (GetJobTime req)) (world σ)
        = ((ss, Some err), world') ->
        if Is err ErrUncollectableRepo
        then body σ = (inr tt, setWorld world' σ)
             /\ Process w req bucketURL σ0
                = resumes w req bucketURL jsonOut csvOut post (setWorld world' σ)
        else exists failure,
               Process w req bucketURL σ0 = (inl failure, setWorld world' σ)
               /\ failure = Errorf "failed during signal collection: %w" err
               /\ Is failure err = true)
  /\ (forall u ss addr text world',
        GetUrl repo <> "" ->
        Parse (GetUrl repo) = inr u ->
        Collect (c w) u (Format (GetJobTime req)) (world σ)
        = ((ss, Some (errors.New addr text)), world') ->
        addr <> uncollectableAddr ->
        Process w req bucketURL σ0
        = (inl (Errorf "failed during signal collection: %w" (errors.New addr text)),
           setWorld world' σ)).
Proof.
  intros Hrepos Hreach body.
  pose proof (Process_split w req bucketURL pre repo post jsonOut csvOut σ0 σ
                Hrepos Hreach) as Hsplit.
  fold body in Hsplit. split; [|split].
  - intros Hskip.
    assert (Hbody : body σ = (inr tt, σ)).
    { destruct Hskip as [Hempty|[err Hparse]].
      - by apply processRepo_empty.
      - by apply (processRepo_unparseable _ _ _ _ _ _ _ err). }
    split; [exact Hbody|]. by rewrite Hbody in Hsplit.
  - intros u ss err world' Hurl Hparse Hcollect.
    pose proof (processRepo_collect_error w (GetJobTime req) _ jsonOut csvOut
                  repo σ u ss err world' Hurl Hparse Hcollect) as Hbody.
    fold body in Hbody. rewrite Hbody in Hsplit.
    destruct (Is err ErrUncollectableRepo); [by split|].
    eexists. split; [exact Hsplit|]. split; [reflexivity|].
    apply Is_Errorf.
  - intros u ss addr text world' Hurl Hparse Hcollect Haddr.
    pose proof (processRepo_collect_error w (GetJobTime req) _ jsonOut csvOut
                  repo σ u ss (errors.New addr text) world' Hurl Hparse Hcollect)
      as Hbody.
    fold body in Hbody. rewrite Hbody in Hsplit.
    unfold ErrUncollectableRepo in Hsplit.
    by rewrite (Is_other_New addr text _ _ Haddr) in Hsplit.
Qed.

Lemma onlyWrites_refl emptySets extras σ : onlyWrites emptySets extras σ σ.
Proof.
  split; [reflexivity|]. exists []. split; [by rewrite app_nil_r|constructor].
Qed.

Lemma onlyWrites_trans emptySets extras σ1 σ2 σ3 :
  onlyWrites emptySets extras σ1 σ2 ->
  onlyWrites emptySets extras σ2 σ3 ->
  onlyWrites emptySets extras σ1 σ3.
Proof.
  intros [Hid12 (w12 & Hc12 & Hw12)] [Hid23 (w23 & Hc23 & Hw23)]. split.
  - congruence.
  - exists (w12 ++ w23). split.
    + by rewrite Hc23, Hc12, app_assoc.
    + by apply Forall_app.
Qed.

Lemma onlyWrites_silent emptySets extras σ σ' :
  commitID σ' = commitID σ -> calls σ' = calls σ ->
  onlyWrites emptySets extras σ σ'.
Proof.
  intros Hid Hcalls. split.
  - unfold currentCommitID. by rewrite Hid.
  - exists []. split; [by rewrite app_nil_r|constructor].
Qed.

Lemma CommitID_run σ :
  CommitID σ = (inr (currentCommitID σ), setCommitID (currentCommitID σ) σ).
Proof. reflexivity. Qed.

(** Asking for the commit ID again gives the same answer, whatever the
    package variable held before the first call. *)
Lemma currentCommitID_stable σ :
  currentCommitID (setCommitID (currentCommitID σ) σ) = currentCommitID σ.
Proof.
  unfold currentCommitID, vcs.CommitID. cbn [commitID setCommitID fst].
  destruct (decide (commitID σ = "")) as [Hunset|Hset].
  - by destruct (decide (vcs.fetchCommitID ReadBuildInfo = "")).
  - by rewrite decide_False.
Qed.

Lemma WriteSignals_onlyWrites emptySets extras out ss fields σ :
  map signalio.Key fields = extras ->
  out = jsonWriter \/ out = csvWriter emptySets extras ->
  onlyWrites emptySets extras σ (WriteSignals out ss fields σ).2.
Proof.
  intros Hkeys Hout.
  assert (Hgoal : commitID (WriteSignals out ss fields σ).2 = commitID σ
                  /\ calls (WriteSignals out ss fields σ).2
                     = calls σ ++ [WriteSignalsCall out ss fields]).
  { unfold WriteSignals. destruct out as [|es hdr].
    - by destruct (jsonWriteSignals ss fields).
    - by destruct (csvWriteSignals es hdr ss fields). }
  destruct Hgoal as [Hid Hcalls]. split.
  - unfold currentCommitID. by rewrite Hid.
  - eexists. split; [exact Hcalls|].
    constructor; [split; assumption|constructor].
Qed.

(** The keys of the extra fields the loop body builds. *)
Lemma extras_keys w jobTime (scoreOf : Scorer -> string) id :
  map signalio.Key
    ((let extras := [] in
      let extras :=
        match s w with
        | Some scorer =>
            extras ++ [{| signalio.Key := scoreColumnName w;
                          signalio.Value := signalio.StringValue (scoreOf scorer) |}]
        | None => extras
        end in
      let extras :=
        extras ++ [{| signalio.Key := collectionDateColumnName;
                      signalio.Value := signalio.TimeValue jobTime |}] in
      if decide (id <> vcs.MissingCommitID)
      then extras ++ [{| signalio.Key := commitIDColumnName;
                         signalio.Value := signalio.StringValue id |}]
      else extras))
  = columns w id.
Proof.
  unfold columns. cbv zeta.
  destruct (s w); destruct (decide (id = vcs.MissingCommitID));
    (rewrite ?decide_True by done; rewrite ?decide_False by tauto);
    reflexivity.
Qed.

Lemma processRepo_onlyWrites w jobTime jobID repo σ :
  let emptySets := EmptySets (c w) in
  let extras := columns w (currentCommitID σ) in
  onlyWrites emptySets extras σ
    (processRepo w jobTime jobID jsonWriter (csvWriter emptySets extras) repo σ).2.
Proof.
  intros emptySets extras. unfold processRepo.
  case_decide; [apply onlyWrites_refl|].
  destruct (Parse (GetUrl repo)) as [err|u]; [apply onlyWrites_refl|].
  unfold bind at 1. unfold collect.
  destruct (Collect (c w) u jobID (world σ)) as [[ss err] world'].
  set (σ1 := setWorld world' σ).
  assert (H1 : onlyWrites emptySets extras σ σ1) by by apply onlyWrites_silent.
  destruct err as [err|].
  { destruct (Is err ErrUncollectableRepo); exact H1. }
  unfold bind at 1. rewrite CommitID_run.
  assert (Hid : currentCommitID σ1 = currentCommitID σ) by apply H1.
  set (σ2 := setCommitID (currentCommitID σ1) σ1).
  assert (H2 : onlyWrites emptySets extras σ1 σ2).
  { split; [apply currentCommitID_stable|].
    exists []. split; [by rewrite app_nil_r|constructor]. }
  match goal with
  | |- context [WriteSignals jsonWriter ss ?fs] => set (fields := fs)
  end.
  assert (Hkeys : map signalio.Key fields = extras).
  { unfold fields, extras. rewrite <- Hid.
    apply (extras_keys w jobTime (fun scorer => scoreText scorer ss)). }
  unfold bind.
  pose proof (WriteSignals_onlyWrites emptySets extras jsonWriter ss fields σ2
                Hkeys (or_introl eq_refl)) as H3.
  rewrite <- (wrap_state "failed writing signals: %w") in H3.
  destruct (wrap _ (WriteSignals jsonWriter ss fields) σ2) as [[err|[]] σ3];
    cbn [snd] in H3 |- *.
  { eauto using onlyWrites_trans. }
  rewrite wrap_state.
  pose proof (WriteSignals_onlyWrites emptySets extras
                (csvWriter emptySets extras) ss fields σ3
                Hkeys (or_intror eq_refl)) as H4.
  eauto using onlyWrites_trans.
Qed.

Lemma processRepos_onlyWrites w jobTime jobID repos σ :
  let emptySets := EmptySets (c w) in
  let extras := columns w (currentCommitID σ) in
  onlyWrites emptySets extras σ
    (processRepos w jobTime jobID jsonWriter (csvWriter emptySets extras)
       repos σ).2.
Proof.
  intros emptySets extras. subst extras. revert σ.
  induction repos as [|repo rest IH]; intros σ; [apply onlyWrites_refl|].
  cbn [processRepos]. unfold bind.
  pose proof (processRepo_onlyWrites w jobTime jobID repo σ) as Hrepo.
  cbv zeta in Hrepo. fold emptySets in Hrepo.
  destruct (processRepo _ _ _ _ _ repo σ) as [[err|[]] σ']; [exact Hrepo|].
  cbn [snd] in Hrepo. specialize (IH σ').
  destruct Hrepo as [Hid Hcalls]. rewrite Hid in IH.
  exact (onlyWrites_trans _ _ _ _ _ (conj Hid Hcalls) IH).
Qed.

Lemma writeToBlobStore_silent bucketURL filename buffer σ :
  commitID (writeToBlobStore bucketURL filename buffer σ).2 = commitID σ
  /\ calls (writeToBlobStore bucketURL filename buffer σ).2 = calls σ.
Proof.
  unfold writeToBlobStore.
  destruct (WriteToBlobStore _ _ _ _) as [[err|] world']; done.
Qed.

Lemma writeBuckets_silent w filename bucketURL σ :
  commitID (writeBuckets w filename bucketURL σ).2 = commitID σ
  /\ calls (writeBuckets w filename bucketURL σ).2 = calls σ.
Proof.
  unfold writeBuckets, bind. case_decide.
  - pose proof (writeToBlobStore_silent (csvBucketURL w) filename csvOutput σ)
      as [Hid Hcalls].
    rewrite <- (wrap_state "error writing csv to blob store: %w") in Hid, Hcalls.
    destruct (wrap _ (writeToBlobStore (csvBucketURL w) _ _) σ) as [[err|[]] σ'];
      cbn [snd] in *; [done|].
    rewrite wrap_state, <- Hid, <- Hcalls. apply writeToBlobStore_silent.
  - cbn [ret]. rewrite wrap_state. apply writeToBlobStore_silent.
Qed.

Lemma prepare_run w σ :
  let extras := columns w (currentCommitID σ) in
  prepare w σ
  = (inr (jsonWriter, csvWriter (EmptySets (c w)) extras),
     record (NewWriter (csvWriter (EmptySets (c w)) extras))
       (setCSVOutput []
          (record (NewWriter jsonWriter)
             (setJSONOutput [] (setCommitID (currentCommitID σ) σ))))).
Proof.
  intros extras. unfold prepare, bind. rewrite CommitID_run.
  unfold JSONWriter, CSVWriter, ret.
  replace (if decide (currentCommitID σ <> vcs.MissingCommitID)
           then _ else _) with extras; [reflexivity|].
  unfold extras, columns.
  destruct (s w); destruct (decide (currentCommitID σ = vcs.MissingCommitID));
    (rewrite ?decide_True by done; rewrite ?decide_False by tauto);
    reflexivity.
Qed.

(** C7. Whatever the state [Process] starts in, the calls it makes into
    signalio are: the construction of the JSON writer, the construction of the
    CSV writer with the extra columns of the worker (score column if a scorer
    is configured, collection date, commit ID column if the commit ID is not
    the missing sentinel), and after these only [WriteSignals] calls, each to
    one of these two writers and each with extra fields whose keys are, in
    order, those same columns. *)
Theorem Process_extras_match_header
  (w : collectWorker) (req : ScorecardBatchRequest) (bucketURL : string)
  (σ : state) :
  let emptySets := EmptySets (c w) in
  let extras :=
    match s w with Some _ => [scoreColumnName w] | None => [] end
    ++ [collectionDateColumnName]
    ++ (if decide ((vcs.CommitID ReadBuildInfo (commitID σ)).1
                   = vcs.MissingCommitID)
        then [] else [commitIDColumnName]) in
  exists written,
    calls (Process w req bucketURL σ).2
    = calls σ
      ++ NewWriter jsonWriter :: NewWriter (csvWriter emptySets extras) :: written
    /\ Forall (writesRecord emptySets extras) written.
Proof.
  intros emptySets extras.
  change extras with (columns w (currentCommitID σ)) in *. clear extras.
  set (extras := columns w (currentCommitID σ)).
  unfold Process, bind.
  rewrite prepare_run. fold emptySets extras.
  set (σ1 := record _ _).
  assert (Hid1 : currentCommitID σ1 = currentCommitID σ)
    by apply currentCommitID_stable.
  assert (Hcalls1 : calls σ1
                    = calls σ ++ [NewWriter jsonWriter;
                                  NewWriter (csvWriter emptySets extras)]).
  { unfold σ1. cbn [calls record setCSVOutput setJSONOutput setCommitID].
    by rewrite <- app_assoc. }
  pose proof (processRepos_onlyWrites w (GetJobTime req)
                (Format (GetJobTime req)) (GetRepos req) σ1) as Hloop.
  cbv zeta in Hloop. rewrite Hid1 in Hloop. fold emptySets extras in Hloop.
  destruct (processRepos _ _ _ _ _ _ σ1) as [[err|[]] σ2]; cbn [snd] in *.
  - destruct Hloop as [_ (written & Hcalls & Hwritten)].
    exists written. split; [|exact Hwritten].
    by rewrite Hcalls, Hcalls1, <- app_assoc.
  - destruct Hloop as [_ (written & Hcalls & Hwritten)].
    exists written. split; [|exact Hwritten].
    destruct (writeBuckets_silent w (ResultFilename req) bucketURL σ2)
      as [_ Hsilent].
    by rewrite Hsilent, Hcalls, Hcalls1, <- app_assoc.
Qed.

End Worker.

Lemma Process_skips_or_aborts_witness :
  (worker.processRepo (H:=demo) demoWorker 0%Z "20221007_000000"
     demoJSON demoCSV {| worker.GetUrl := "/gone/repo" |}
     (reaches (H:=demo) demoWorker (shard "/gone/repo") [scorecard] demoStart).2
   = (inr tt,
      worker.setWorld (H:=demo) 2
        (reaches (H:=demo) demoWorker (shard "/gone/repo") [scorecard]
           demoStart).2)
   /\ worker.Process (H:=demo) demoWorker (shard "/gone/repo") "bucket" demoStart
      = resumes (H:=demo) demoWorker (shard "/gone/repo") "bucket"
          demoJSON demoCSV [criticality]
          (worker.setWorld (H:=demo) 2
             (reaches (H:=demo) demoWorker (shard "/gone/repo") [scorecard]
                demoStart).2))
  /\ (worker.Process (H:=demo) demoWorker (shard "/down/repo") "bucket" demoStart).1
     = inl (Errorf "failed during signal collection: %w"
              (errors.New 11 "connection reset"))
  /\ (worker.Process (H:=demo) demoWorker (shard "/lookalike/repo") "bucket"
        demoStart).1
     = inl (Errorf "failed during signal collection: %w"
              (errors.New 12 "repo is uncollectable")).
Proof.
  split; [|split].
  - destruct (Process_skips_or_aborts (H:=demo) demoWorker (shard "/gone/repo")
                "bucket" [scorecard] [criticality]
                {| worker.GetUrl := "/gone/repo" |} demoJSON demoCSV demoStart
                (reaches (H:=demo) demoWorker (shard "/gone/repo")
                   [scorecard] demoStart).2
                eq_refl eq_refl) as (_ & Hcollect & _).
    exact (Hcollect
             {| url.Scheme := "https"; url.Host := "github.com";
                url.Path := "/gone/repo" |}
             [] (Errorf "collecting: %w" (worker.ErrUncollectableRepo (H:=demo)))
             2 ltac:(discriminate) eq_refl eq_refl).
  - destruct (Process_skips_or_aborts (H:=demo) demoWorker (shard "/down/repo")
                "bucket" [scorecard] [criticality]
                {| worker.GetUrl := "/down/repo" |} demoJSON demoCSV demoStart
                (reaches (H:=demo) demoWorker (shard "/down/repo")
                   [scorecard] demoStart).2
                eq_refl eq_refl) as (_ & Hcollect & _).
    destruct (Hcollect
                {| url.Scheme := "https"; url.Host := "github.com";
                   url.Path := "/down/repo" |}
                [] (errors.New 11 "connection reset") 2
                ltac:(discriminate) eq_refl eq_refl)
      as (failure & Hprocess & -> & _).
    by rewrite Hprocess.
  - destruct (Process_skips_or_aborts (H:=demo) demoWorker
                (shard "/lookalike/repo")
                "bucket" [scorecard] [criticality]
                {| worker.GetUrl := "/lookalike/repo" |} demoJSON demoCSV
                demoStart
                (reaches (H:=demo) demoWorker (shard "/lookalike/repo")
                   [scorecard] demoStart).2
                eq_refl eq_refl) as (_ & _ & Hother).
    rewrite (Hother
               {| url.Scheme := "https"; url.Host := "github.com";
                  url.Path := "/lookalike/repo" |}
               [] 12%positive "repo is uncollectable" 2
               ltac:(discriminate) eq_refl eq_refl ltac:(discriminate)).
    reflexivity.
Defined.

(** * Further properties *)

(** ** binary64: NaN and zero *)

Lemma Prim2SF_inj (x y : float) : Prim2SF x = Prim2SF y -> x = y.
Proof.
  intros Heq. rewrite <- (SF2Prim_Prim2SF x), Heq. apply SF2Prim_Prim2SF.
Qed.

Lemma Prim2SF_nan : Prim2SF nan = S754_nan.
Proof. reflexivity. Qed.

Lemma is_nan_Prim2SF (x : float) :
  PrimFloat.is_nan x = true <-> Prim2SF x = S754_nan.
Proof.
  unfold PrimFloat.is_nan. rewrite FloatAxioms.eqb_spec.
  unfold SFeqb, SFcompare.
  destruct (Prim2SF x) as [sx|sx| |sx mx ex]; cbn.
  - destruct sx; split; discriminate.
  - destruct sx; split; discriminate.
  - split; reflexivity.
  - rewrite Z.compare_refl, Pos.compare_cont_refl.
    destruct sx; cbn; split; discriminate.
Qed.

Lemma is_nan_eq (x : float) : PrimFloat.is_nan x = true <-> x = nan.
Proof.
  rewrite is_nan_Prim2SF. split.
  - intros Hx. apply Prim2SF_inj. by rewrite Hx.
  - by intros ->.
Qed.

Lemma is_zero_Prim2SF (x : float) :
  PrimFloat.is_zero x = true <-> exists sign, Prim2SF x = S754_zero sign.
Proof.
  unfold PrimFloat.is_zero. rewrite FloatAxioms.eqb_spec.
  change (Prim2SF PrimFloat.zero) with (S754_zero false).
  unfold SFeqb, SFcompare.
  destruct (Prim2SF x) as [sx|sx| |sx mx ex]; cbn.
  - split; [eauto|reflexivity].
  - destruct sx; split; try discriminate; intros [? [=]].
  - split; [discriminate|intros [? [=]]].
  - destruct sx; split; try discriminate; intros [? [=]].
Qed.

Lemma add_nan_l (x : float) : (nan + x)%float = nan.
Proof. apply Prim2SF_inj. by rewrite add_spec, Prim2SF_nan. Qed.

Lemma add_nan_r (x : float) : (x + nan)%float = nan.
Proof.
  apply Prim2SF_inj. rewrite add_spec, Prim2SF_nan.
  unfold SF64add, SFadd. by destruct (Prim2SF x).
Qed.

Lemma mul_nan_l (x : float) : (nan * x)%float = nan.
Proof. apply Prim2SF_inj. by rewrite mul_spec, Prim2SF_nan. Qed.

Lemma mul_nan_r (x : float) : (x * nan)%float = nan.
Proof.
  apply Prim2SF_inj. rewrite mul_spec, Prim2SF_nan.
  unfold SF64mul, SFmul. by destruct (Prim2SF x).
Qed.

Lemma div_nan_l (x : float) : (nan / x)%float = nan.
Proof. apply Prim2SF_inj. by rewrite div_spec, Prim2SF_nan. Qed.

(** Once the running sum is NaN it stays NaN. *)
Lemma foldl_accumulate_nan (record : gmap string float) inputs c :
  exists c', foldl (accumulate record) (nan, c) inputs = (nan, c').
Proof.
  revert c. induction inputs as [|i inputs IH]; intros c; [by exists c|].
  cbn [foldl]. unfold accumulate at 2.
  destruct (Value i record) as [v|]; [|apply IH].
  cbn [fadd fmul binary64]. rewrite add_nan_l. apply IH.
Qed.

(** X1. NaN propagates: when some input has a value in the record and its
    normalized value or its weight is NaN, the score is NaN. *)
Theorem Score_propagates_NaN
  (inputs : list (Input float)) (record : gmap string float) :
  Exists (fun i => exists v, Value i record = Some v
                             /\ (PrimFloat.is_nan v = true
                                 \/ PrimFloat.is_nan (Weight i) = true))
         inputs ->
  PrimFloat.is_nan (Score {| inputs := inputs |} record) = true.
Proof.
  intros Hnan.
  assert (Hloop : forall acc, exists c,
             foldl (accumulate record) acc inputs = (nan, c)).
  { induction Hnan as [i inputs (v & Hv & Hnan)|i inputs _ IH]; intros [s c].
    - cbn [foldl]. unfold accumulate at 2. rewrite Hv.
      cbn [fadd fmul binary64].
      assert (Hproduct : (Weight i * v)%float = nan).
      { destruct Hnan as [->%is_nan_eq | ->%is_nan_eq];
          [apply mul_nan_r|apply mul_nan_l]. }
      rewrite Hproduct, add_nan_r. apply foldl_accumulate_nan.
    - cbn [foldl]. apply IH. }
  unfold Score. cbn [wam.inputs].
  destruct (Hloop (f0, f0)) as [c ->].
  cbn [fdiv binary64]. by rewrite div_nan_l.
Qed.

Lemma Score_propagates_NaN_witness :
  PrimFloat.is_nan
    (Score {| inputs := [inputA; inputB] |}
           {[ "A" := 10%float; "B" := nan ]}) = true.
Proof.
  apply Score_propagates_NaN.
  apply Exists_cons_tl, Exists_cons_hd. exists nan.
  split; [reflexivity|left; reflexivity].
Defined.

Lemma accumulate_degenerate (record : gmap string float) acc i :
  Value i record = None \/ PrimFloat.is_zero (Weight i) = true ->
  degenerate acc -> degenerate (accumulate record acc i).
Proof.
  intros Hi [Hsum Hcount]. destruct acc as [s c]. cbn [fst snd] in *.
  unfold accumulate. destruct (Value i record) as [v|]; [|by split].
  destruct Hi as [|[sign Hw]%is_zero_Prim2SF]; [done|].
  cbn [fadd fmul binary64]. split; cbn [fst snd].
  - rewrite add_spec, mul_spec, Hw. unfold SF64add, SF64mul, SFadd, SFmul.
    destruct Hsum as [-> | ->]; [|by right].
    destruct (Prim2SF v) as [sv|sv| |sv mv ev]; auto;
      destruct (xorb sign sv); auto.
  - rewrite add_spec, Hw, Hcount. unfold SF64add, SFadd. by destruct sign.
Qed.

(** X2. Zero total weight: when every input that has a value in the record
    has weight zero (of either sign), the score is NaN, as it is when no
    input has a value. *)
Theorem Score_zero_weight_is_NaN
  (inputs : list (Input float)) (record : gmap string float) :
  Forall (fun i => Value i record = None
                   \/ PrimFloat.is_zero (Weight i) = true) inputs ->
  PrimFloat.is_nan (Score {| inputs := inputs |} record) = true.
Proof.
  intros Hall.
  assert (Hloop : forall acc, degenerate acc ->
             degenerate (foldl (accumulate record) acc inputs)).
  { induction Hall as [|i inputs Hi _ IH]; intros acc Hacc; [exact Hacc|].
    cbn [foldl]. apply IH. by apply accumulate_degenerate. }
  unfold Score. cbn [wam.inputs].
  specialize (Hloop (f0, f0)).
  destruct (foldl (accumulate record) (f0, f0) inputs) as [s c].
  destruct Hloop as [Hsum Hcount]; [by split; [left|]|].
  cbn [fst snd] in *. apply is_nan_Prim2SF.
  cbn [fdiv binary64]. rewrite div_spec, Hcount. unfold SF64div, SFdiv.
  by destruct Hsum as [-> | ->].
Qed.

Lemma Score_zero_weight_is_NaN_witness :
  PrimFloat.is_nan
    (Score {| inputs := [inputZero; inputB] |} {[ "A" := 10%float ]}) = true.
Proof.
  apply Score_zero_weight_is_NaN.
  constructor; [right; reflexivity|].
  constructor; [left; reflexivity|constructor].
Defined.

(** ** More on the distribution registry *)

(** X3. The default distribution name is a registered one: looking it up
    gives a distribution of that name, and it is the identity. *)
Theorem default_distribution_is_registered :
  forall (F : Type) (FF : Float64 F) (L : MathLog F),
  exists d : Distribution F,
    LookupDistribution DefaultDistributionName = Some d
    /\ String d = DefaultDistributionName
    /\ forall x : F, Normalize d x = x.
Proof.
  intros F FF L. eexists. split; [apply LookupDistribution_linear|].
  split; [reflexivity|]. intros x. reflexivity.
Qed.

(** ** The commit ID *)

(** X5. [CommitID] caches: after a call the package variable holds the ID
    returned, a second call returns the same ID and leaves the variable as it
    is, and a variable that was already non-empty is returned whatever the
    build information says. *)
Theorem CommitID_is_cached
  (info : option vcs.BuildInfo) (commitID : string) :
  let '(id, var) := vcs.CommitID info commitID in
  var = id
  /\ vcs.CommitID info var = (id, id)
  /\ (commitID <> "" -> id = commitID).
Proof.
  unfold vcs.CommitID.
  destruct (decide (commitID = "")) as [->|Hset].
  - split; [reflexivity|]. split; [|done].
    by destruct (decide (vcs.fetchCommitID info = "")) as [->|].
  - split; [reflexivity|]. split; [|done]. by rewrite decide_False.
Qed.

Lemma CommitID_is_cached_witness :
  vcs.CommitID (Some stampedTwice) "" = ("0a1b2c3", "0a1b2c3")
  /\ vcs.CommitID (Some stampedTwice) "0a1b2c3" = ("0a1b2c3", "0a1b2c3")
  /\ vcs.CommitID None "0a1b2c3" = ("0a1b2c3", "0a1b2c3").
Proof.
  pose proof (CommitID_is_cached (Some stampedTwice) "") as Hfresh.
  pose proof (CommitID_is_cached None "0a1b2c3") as Hcached.
  split; [reflexivity|]. split; [apply Hfresh|].
  destruct Hcached as (_ & Hagain & _). exact Hagain.
Defined.

Lemma revisionOf_app (pre post : list vcs.BuildSetting) :
  Forall (fun setting => vcs.Key setting <> vcs.commitIDKey) pre ->
  vcs.revisionOf (pre ++ post) = vcs.revisionOf post.
Proof.
  induction 1 as [|setting pre Hkey _ IH]; [done|].
  cbn [app vcs.revisionOf]. by rewrite decide_False.
Qed.

(** X6. [fetchCommitID] returns the value of the first build setting whose
    key is "vcs.revision"; it returns the missing sentinel when the binary
    has no build information or no such setting. *)
Theorem fetchCommitID_first_revision :
  vcs.fetchCommitID None = vcs.MissingCommitID
  /\ (forall info : vcs.BuildInfo,
        Forall (fun setting => vcs.Key setting <> vcs.commitIDKey)
               (vcs.Settings info) ->
        vcs.fetchCommitID (Some info) = vcs.MissingCommitID)
  /\ (forall (info : vcs.BuildInfo) pre setting post,
        vcs.Settings info = pre ++ setting :: post ->
        Forall (fun earlier => vcs.Key earlier <> vcs.commitIDKey) pre ->
        vcs.Key setting = vcs.commitIDKey ->
        vcs.fetchCommitID (Some info) = vcs.Value setting).
Proof.
  split; [reflexivity|]. split.
  - intros info Hnone. unfold vcs.fetchCommitID.
    rewrite <- (app_nil_r (vcs.Settings info)).
    by rewrite (revisionOf_app _ [] Hnone).
  - intros info pre setting post Hsettings Hpre Hkey.
    unfold vcs.fetchCommitID. rewrite Hsettings, (revisionOf_app _ _ Hpre).
    cbn [vcs.revisionOf]. by rewrite decide_True.
Qed.

Lemma fetchCommitID_first_revision_witness :
  vcs.fetchCommitID (Some stampedTwice) = "0a1b2c3"
  /\ vcs.fetchCommitID (Some unstamped) = vcs.MissingCommitID.
Proof.
  destruct fetchCommitID_first_revision as (_ & Hnone & Hfirst).
  split.
  - apply (Hfirst stampedTwice [ {| vcs.Key := "vcs"; vcs.Value := "git" |} ]
             {| vcs.Key := "vcs.revision"; vcs.Value := "0a1b2c3" |}
             [ {| vcs.Key := "vcs.revision"; vcs.Value := "ffffff" |} ]
             eq_refl); [|reflexivity].
    constructor; [discriminate|constructor].
  - apply Hnone. constructor; [discriminate|constructor].
Defined.

(** ** Trimming *)

Lemma firstByte_trimLeftByte (s : string) (c : ascii) :
  firstByte (gostrings.trimLeftByte s c) <> Some c.
Proof.
  induction s as [|a s IH]; [discriminate|].
  cbn [gostrings.trimLeftByte]. case_decide; [exact IH|].
  cbn [firstByte]. congruence.
Qed.

Lemma lastByte_nonempty (a : ascii) (s : string) :
  is_Some (lastByte (String.String a s)).
Proof.
  revert a. induction s as [|b s IH]; intros a; [by eexists|]. apply (IH b).
Qed.

Lemma lastByte_rev_app (s acc : string) :
  lastByte (String.rev_app s acc)
  = match lastByte acc with
    | Some a => Some a
    | None => firstByte s
    end.
Proof.
  revert acc. induction s as [|a s IH]; intros acc.
  - cbn [String.rev_app firstByte]. by destruct (lastByte acc).
  - cbn [String.rev_app firstByte]. rewrite IH.
    destruct acc as [|b acc]; [reflexivity|].
    destruct (lastByte_nonempty b acc) as [z Hz].
    change (lastByte (String.String a (String.String b acc)))
      with (lastByte (String.String b acc)).
    by rewrite Hz.
Qed.

Lemma lastByte_trimRightByte (s : string) (c : ascii) :
  lastByte (gostrings.trimRightByte s c) <> Some c.
Proof.
  unfold gostrings.trimRightByte, String.rev. rewrite lastByte_rev_app.
  cbn [lastByte]. apply firstByte_trimLeftByte.
Qed.

(** What is left of a string trimmed on the left is empty or ends as the
    string did. *)
Lemma lastByte_trimLeftByte (s : string) (c : ascii) :
  gostrings.trimLeftByte s c = EmptyString
  \/ lastByte (gostrings.trimLeftByte s c) = lastByte s.
Proof.
  induction s as [|a s IH]; [by left|].
  cbn [gostrings.trimLeftByte]. case_decide; [|by right].
  destruct s as [|b s]; [by left|].
  destruct IH as [Hempty|Hlast]; [by left|]. right. by rewrite Hlast.
Qed.

Lemma Trim_ends (s : string) (c : ascii) :
  firstByte (gostrings.Trim s c) <> Some c
  /\ lastByte (gostrings.Trim s c) <> Some c.
Proof.
  unfold gostrings.Trim. split; [apply firstByte_trimLeftByte|].
  destruct (lastByte_trimLeftByte (gostrings.trimRightByte s c) c)
    as [-> | ->]; [discriminate|apply lastByte_trimRightByte].
Qed.

(** ** More on the deps.dev source *)

(** X7. The project name [parseRepoURL] returns neither starts nor ends
    with a slash; the project type is "GITHUB" exactly for the host
    github.com, and for any other host both results are empty. *)
Theorem parseRepoURL_project_name
  (Hostname : url.URL -> string) (u : url.URL) :
  let '(projectName, projectType) := depsdev.parseRepoURL Hostname u in
  firstByte projectName <> Some "/"%char
  /\ lastByte projectName <> Some "/"%char
  /\ ((Hostname u = "github.com" /\ projectType = "GITHUB"
       /\ projectName = gostrings.Trim (url.Path u) "/"%char)
      \/ (Hostname u <> "github.com" /\ projectType = ""
          /\ projectName = "")).
Proof.
  destruct (decide (Hostname u = "github.com")) as [Hgh|Hother].
  - rewrite (parseRepoURL_github _ _ Hgh).
    destruct (Trim_ends (url.Path u) "/"%char) as [Hfirst Hlast].
    split; [exact Hfirst|]. split; [exact Hlast|]. by left.
  - rewrite (parseRepoURL_other _ _ Hother).
    split; [discriminate|]. split; [discriminate|]. by right.
Qed.



(** X9. [Get] of the deps.dev source returns a set with a nil error or the
    nil set with an error, never both and never neither; the error is the
    error of the lookup, wrapped, and still matches it. *)
Theorem depsdev_Get_set_or_error
  (Hostname : url.URL -> string)
  (Count : string -> string -> string -> Z * bool * option error)
  (r : projectrepo.Repo) (jobID : string) :
  match depsdev.Get Hostname Count r jobID with
  | (Some _, None) => True
  | (None, Some err) =>
      Hostname (projectrepo.URL r) = "github.com"
      /\ exists cause,
           (Count (gostrings.Trim (url.Path (projectrepo.URL r)) "/"%char)
                  "GITHUB" jobID).2 = Some cause
           /\ err = Errorf "failed to fetch deps.dev dependent count: %w" cause
           /\ Is err cause = true
  | (None, None) | (Some _, Some _) => False
  end.
Proof.
  destruct (decide (Hostname (projectrepo.URL r) = "github.com")) as [Hgh|Hother].
  - rewrite (Get_github _ _ _ _ Hgh).
    destruct (Count _ _ _) as [[deps found] [cause|]]; [|done].
    split; [exact Hgh|]. exists cause. split; [reflexivity|].
    split; [reflexivity|]. apply Is_Errorf.
  - by rewrite (Get_other _ _ _ _ Hother).
Qed.

(** ** More on the GitHub mentions source *)

(** X10. The mention count depends on the URL only through its path with
    the leading and trailing slashes removed: two repositories with the same
    trimmed path get the same result, whatever their hosts and schemes and
    whatever the job IDs. *)
Theorem mentions_depend_on_trimmed_path
  (SearchCommits : string -> option githubmentions.CommitsSearchResult * option error)
  (r r' : projectrepo.Repo) (jobID jobID' : string) :
  gostrings.Trim (url.Path (projectrepo.URL r)) "/"%char
  = gostrings.Trim (url.Path (projectrepo.URL r')) "/"%char ->
  githubmentions.Get SearchCommits r jobID
  = githubmentions.Get SearchCommits r' jobID'.
Proof.
  intros Hpath.
  unfold githubmentions.Get, githubmentions.githubSearchTotalCommitMentions.
  by rewrite Hpath.
Qed.

Lemma mentions_depend_on_trimmed_path_witness :
  githubmentions.Get
    (fun _ => (Some {| githubmentions.Total := Some 42%Z |}, None))
    githubRepo "20221007_000000"
  = githubmentions.Get
      (fun _ => (Some {| githubmentions.Total := Some 42%Z |}, None))
      gitlabRepo "20221008_000000".
Proof.
  apply mentions_depend_on_trimmed_path. reflexivity.
Defined.

(** ** Splitting *)

Lemma Split_nonempty (s : string) (sep : ascii) :
  exists piece pieces, gostrings.Split s sep = piece :: pieces.
Proof.
  induction s as [|a s (piece & pieces & IH)]; [by eexists _, _|].
  cbn [gostrings.Split]. case_decide; [by eexists _, _|].
  rewrite IH. by eexists _, _.
Qed.

(** Joining the pieces with the separator gives the string back. *)
Lemma Join_Split (s : string) (sep : ascii) :
  Join (gostrings.Split s sep) sep = s.
Proof.
  induction s as [|a s IH]; [reflexivity|].
  cbn [gostrings.Split].
  destruct (Split_nonempty s sep) as (piece & pieces & Hsplit).
  rewrite Hsplit in *. case_decide as Ha.
  - subst a. change (Join (EmptyString :: piece :: pieces) sep)
      with (String.String sep (Join (piece :: pieces) sep)).
    by rewrite IH.
  - destruct pieces as [|next pieces].
    + cbn [Join] in *. by rewrite IH.
    + change (Join (String.String a piece :: next :: pieces) sep)
        with (String.String a (Join (piece :: next :: pieces) sep)).
      by rewrite IH.
Qed.

Lemma Split_pieces (s : string) (sep : ascii) :
  Forall (fun piece => hasByte sep piece = false) (gostrings.Split s sep).
Proof.
  induction s as [|a s IH]; [by repeat constructor|].
  cbn [gostrings.Split]. case_decide as Ha; [by constructor|].
  destruct (gostrings.Split s sep) as [|piece pieces].
  { constructor; [|constructor]. cbn [hasByte]. by rewrite decide_False. }
  apply Forall_cons in IH as [Hpiece Hpieces].
  constructor; [|exact Hpieces]. cbn [hasByte]. by rewrite decide_False.
Qed.

(** There is a second piece exactly when the separator occurs. *)
Lemma Split_second (s : string) (sep : ascii) :
  gostrings.Split s sep !! 1%nat = None <-> hasByte sep s = false.
Proof.
  induction s as [|a s IH]; [done|].
  cbn [gostrings.Split hasByte].
  destruct (Split_nonempty s sep) as (piece & pieces & Hsplit).
  rewrite Hsplit in *. case_decide; [done|]. exact IH.
Qed.

(** ** The basic repository query *)


(** X12. When the trimmed path contains a slash, the query is sent for the
    first two pieces of the trimmed path as owner and name (further pieces
    are not looked at) and for the commits since 365 days before now; what
    the client answers is returned as it is, the repository with a nil error
    or nil with the client's error. *)
Theorem queryBasicRepoData_first_two_pieces
  (Now : Z) (Query : gmap string github.variable -> error + github.basicRepoData)
  (u : url.URL) :
  hasByte "/"%char (gostrings.Trim (url.Path u) "/"%char) = true ->
  exists owner name rest,
    Join (owner :: name :: rest) "/"%char = gostrings.Trim (url.Path u) "/"%char
    /\ hasByte "/"%char owner = false
    /\ hasByte "/"%char name = false
    /\ github.queryBasicRepoData Now Query u
       = github.Returns
           match Query (queryVariables Now owner name) with
           | inl err => (None, Some err)
           | inr repository => (Some repository, None)
           end.
Proof.
  intros Hslash.
  pose proof (Join_Split (gostrings.Trim (url.Path u) "/"%char) "/"%char) as Hjoin.
  pose proof (Split_pieces (gostrings.Trim (url.Path u) "/"%char) "/"%char)
    as Hpieces.
  pose proof (Split_second (gostrings.Trim (url.Path u) "/"%char) "/"%char)
    as Hsecond.
  unfold github.queryBasicRepoData.
  destruct (gostrings.Split _ _) as [|owner [|name rest]].
  - destruct Hsecond as [Hnone _]. rewrite Hnone in Hslash; done.
  - destruct Hsecond as [Hnone _]. rewrite Hnone in Hslash; done.
  - apply Forall_cons in Hpieces as [Howner Hpieces].
    apply Forall_cons in Hpieces as [Hname _].
    exists owner, name, rest. split; [exact Hjoin|].
    split; [exact Howner|]. split; [exact Hname|].
    cbn [lookup list_lookup]. unfold queryVariables.
    by destruct (Query _).
Qed.

Lemma queryBasicRepoData_first_two_pieces_witness :
  exists owner name rest,
    Join (owner :: name :: rest) "/"%char = "ossf/criticality_score/tree/main"
    /\ hasByte "/"%char owner = false
    /\ hasByte "/"%char name = false
    /\ github.queryBasicRepoData 1665100800000000000 oneRepository treeURL
       = github.Returns
           match
             oneRepository (queryVariables 1665100800000000000 owner name)
           with
           | inl err => (None, Some err)
           | inr repository => (Some repository, None)
           end.
Proof.
  apply (queryBasicRepoData_first_two_pieces
           1665100800000000000 oneRepository treeURL).
  reflexivity.
Defined.

(** ** More on the collection worker *)

Section MoreWorker.
Import worker.
Context `{Collaborators}.

Lemma processRepo_malformed w jobTime jobID jsonOut csvOut repo σ :
  wellFormed repo = false ->
  processRepo w jobTime jobID jsonOut csvOut repo σ = (inr tt, σ).
Proof.
  unfold wellFormed. intros Hbad.
  destruct (decide (GetUrl repo = "")) as [Hempty|Hurl].
  - by apply processRepo_empty.
  - rewrite (bool_decide_eq_false_2 _ Hurl) in Hbad. cbn [negb andb] in Hbad.
    destruct (Parse (GetUrl repo)) as [err|u] eqn:Hparse; [|discriminate].
    by apply (processRepo_unparseable _ _ _ _ _ _ _ err).
Qed.

Lemma processRepos_filter w jobTime jobID jsonOut csvOut repos σ :
  processRepos w jobTime jobID jsonOut csvOut (List.filter wellFormed repos) σ
  = processRepos w jobTime jobID jsonOut csvOut repos σ.
Proof.
  revert σ. induction repos as [|repo repos IH]; intros σ; [done|].
  cbn [List.filter processRepos].
  destruct (wellFormed repo) eqn:Hrepo.
  - cbn [processRepos]. unfold bind.
    destruct (processRepo _ _ _ _ _ repo σ) as [[err|[]] σ']; [done|apply IH].
  - unfold bind. rewrite (processRepo_malformed _ _ _ _ _ _ _ Hrepo). apply IH.
Qed.

(** X13. Entries of the shard with an empty or unparseable URL do not count:
    [Process] does to a request what it does to the request without them
    (same job time, same result file name), in result and in final state. *)
Theorem Process_ignores_malformed
  (w : collectWorker) (req req' : ScorecardBatchRequest) (bucketURL : string)
  (σ : state) :
  GetRepos req' = List.filter wellFormed (GetRepos req) ->
  GetJobTime req' = GetJobTime req ->
  ResultFilename req' = ResultFilename req ->
  Process w req' bucketURL σ = Process w req bucketURL σ.
Proof.
  intros Hrepos Htime Hname. unfold Process, bind.
  rewrite Hrepos, Htime, Hname.
  destruct (prepare w σ) as [[err|[jsonOut csvOut]] σ1]; [done|].
  by rewrite processRepos_filter.
Qed.

End MoreWorker.

Lemma Process_ignores_malformed_witness :
  worker.Process (H:=demo) demoWorker cleanShard "bucket" demoStart
  = worker.Process (H:=demo) demoWorker (shard "") "bucket" demoStart
  /\ worker.Process (H:=demo) demoWorker cleanShard "bucket" demoStart
     = worker.Process (H:=demo) demoWorker (shard ":") "bucket" demoStart.
Proof.
  split.
  - apply (Process_ignores_malformed (H:=demo) demoWorker (shard "") cleanShard);
      reflexivity.
  - apply (Process_ignores_malformed (H:=demo) demoWorker (shard ":") cleanShard);
      reflexivity.
Defined.

Section WorkerBuffers.
Import worker.
Context `{Collaborators}.

(** One turn of the loop, started with the two buffers equal: a row is
    written to both buffers, to none, or (when the CSV writer refuses it) to
    the JSON buffer alone, and then the turn ends with an error. *)
Lemma processRepo_inStep w jobTime jobID emptySets header repo σ res σ' :
  jsonOutput σ = csvOutput σ ->
  processRepo w jobTime jobID jsonWriter (csvWriter emptySets header) repo σ
  = (res, σ') ->
  inStep σ'
  /\ (res = inr tt -> jsonOutput σ' = csvOutput σ')
  /\ length (csvOutput σ') <= S (length (csvOutput σ)).
Proof.
  intros Heq.
  assert (Hsame : forall res0 σ0,
             jsonOutput σ0 = jsonOutput σ -> csvOutput σ0 = csvOutput σ ->
             (res0, σ0) = (res, σ') ->
             inStep σ'
             /\ (res = inr tt -> jsonOutput σ' = csvOutput σ')
             /\ length (csvOutput σ') <= S (length (csvOutput σ))).
  { intros res0 σ0 Hjson Hcsv [= <- <-]. unfold inStep. rewrite Hjson, Hcsv.
    split; [by left|]. split; [done|lia]. }
  unfold processRepo.
  case_decide; [by apply Hsame|].
  destruct (Parse (GetUrl repo)) as [err|u]; [by apply Hsame|].
  unfold bind at 1. unfold collect.
  destruct (Collect (c w) u jobID (world σ)) as [[ss [err|]] world'].
  { destruct (Is err ErrUncollectableRepo); by apply Hsame. }
  unfold bind at 1. rewrite CommitID_run.
  match goal with
  | |- context [WriteSignals jsonWriter ss ?fs] => set (fields := fs)
  end.
  unfold bind, wrap, WriteSignals.
  destruct (jsonWriteSignals ss fields) as [err|]; [by apply Hsame|].
  destruct (csvWriteSignals emptySets header ss fields) as [err|];
    intros [= <- <-]; unfold inStep;
    cbn [jsonOutput csvOutput record setWorld setCommitID
         setJSONOutput setCSVOutput].
  - split; [right; exists (ss, fields); by rewrite Heq|]. split; [done|lia].
  - rewrite Heq. split; [by left|]. split; [done|].
    rewrite length_app. cbn [length]. lia.
Qed.

Lemma processRepos_inStep w jobTime jobID emptySets header repos σ res σ' :
  jsonOutput σ = csvOutput σ ->
  processRepos w jobTime jobID jsonWriter (csvWriter emptySets header) repos σ
  = (res, σ') ->
  inStep σ'
  /\ (res = inr tt -> jsonOutput σ' = csvOutput σ')
  /\ length (csvOutput σ') <= length (csvOutput σ) + length repos.
Proof.
  revert σ. induction repos as [|repo repos IH]; intros σ Heq.
  - intros [= <- <-]. split; [by left|]. split; [done|lia].
  - cbn [processRepos]. unfold bind.
    destruct (processRepo _ _ _ _ _ repo σ) as [[err|[]] σ1] eqn:Hrepo;
      destruct (processRepo_inStep _ _ _ _ _ _ _ _ _ Heq Hrepo)
        as (Hstep & Hok & Hlen).
    + intros [= <- <-]. split; [exact Hstep|]. split; [done|].
      cbn [length]. lia.
    + intros Hrest.
      destruct (IH σ1 (Hok eq_refl) Hrest) as (Hstep' & Hok' & Hlen').
      split; [exact Hstep'|]. split; [exact Hok'|]. cbn [length]. lia.
Qed.

Lemma writeToBlobStore_buffers bucketURL filename buffer σ :
  jsonOutput (writeToBlobStore bucketURL filename buffer σ).2 = jsonOutput σ
  /\ csvOutput (writeToBlobStore bucketURL filename buffer σ).2 = csvOutput σ.
Proof.
  unfold writeToBlobStore.
  destruct (WriteToBlobStore _ _ _ _) as [[err|] world']; done.
Qed.

Lemma writeBuckets_buffers w filename bucketURL σ :
  jsonOutput (writeBuckets w filename bucketURL σ).2 = jsonOutput σ
  /\ csvOutput (writeBuckets w filename bucketURL σ).2 = csvOutput σ.
Proof.
  unfold writeBuckets, bind. case_decide.
  - pose proof (writeToBlobStore_buffers (csvBucketURL w) filename csvOutput σ)
      as [Hjson Hcsv].
    rewrite <- (wrap_state "error writing csv to blob store: %w") in Hjson, Hcsv.
    destruct (wrap _ (writeToBlobStore (csvBucketURL w) _ _) σ) as [[err|[]] σ'];
      cbn [snd] in *; [done|].
    rewrite wrap_state, <- Hjson, <- Hcsv. apply writeToBlobStore_buffers.
  - cbn [ret]. rewrite wrap_state. apply writeToBlobStore_buffers.
Qed.

(** X14. The two outputs hold the same records: when [Process] returns no
    error the JSON buffer and the CSV buffer hold the same rows; when it
    returns an error the JSON buffer holds the rows of the CSV buffer and at
    most one more; and there are never more rows than repositories. *)
Theorem Process_buffers_in_step
  (w : collectWorker) (req : ScorecardBatchRequest) (bucketURL : string)
  (σ : state) :
  let r := Process w req bucketURL σ in
  inStep r.2
  /\ (r.1 = inr tt -> jsonOutput r.2 = csvOutput r.2)
  /\ length (csvOutput r.2) <= length (GetRepos req).
Proof.
  intros r. subst r. unfold Process, bind. rewrite prepare_run.
  set (σ1 := record _ _).
  assert (Heq1 : jsonOutput σ1 = csvOutput σ1) by reflexivity.
  assert (Hlen1 : length (csvOutput σ1) = 0) by reflexivity.
  destruct (processRepos _ _ _ _ _ _ σ1) as [[err|[]] σ2] eqn:Hloop;
    destruct (processRepos_inStep _ _ _ _ _ _ _ _ _ Heq1 Hloop)
      as (Hstep & Hok & Hlen); cbn [fst snd].
  - split; [exact Hstep|]. split; [done|lia].
  - destruct (writeBuckets_buffers w (ResultFilename req) bucketURL σ2)
      as [Hjson Hcsv].
    unfold inStep. rewrite Hjson, Hcsv.
    split; [left; by apply Hok|]. split; [intros _; by apply Hok|lia].
Qed.

End WorkerBuffers.

Section WorkerErrors.
Import worker.
Context `{Collaborators}.

Lemma wrap_inl {A : Type} (format : string) (m : M A) σ err σ' :
  wrap format m σ = (inl err, σ') ->
  exists cause, err = Errorf format cause /\ m σ = (inl cause, σ').
Proof.
  unfold wrap. destruct (m σ) as [[cause|a] σ0]; intros [= <- <-]; eauto.
Qed.

Lemma wrap_inr {A : Type} (format : string) (m : M A) σ a σ' :
  wrap format m σ = (inr a, σ') -> m σ = (inr a, σ').
Proof.
  unfold wrap. by destruct (m σ) as [[cause|a0] σ0]; intros [= <- <-].
Qed.

Lemma processRepo_error_wrapped w jobTime jobID jsonOut csvOut repo σ err σ' :
  processRepo w jobTime jobID jsonOut csvOut repo σ = (inl err, σ') ->
  wrapped processFormats err.
Proof.
  unfold processRepo. case_decide; [discriminate|].
  destruct (Parse (GetUrl repo)) as [bad|u]; [discriminate|].
  unfold bind at 1. unfold collect.
  destruct (Collect (c w) u jobID (world σ)) as [[ss [cause|]] world'].
  { destruct (Is cause ErrUncollectableRepo); [discriminate|].
    intros [= <- <-]. eexists _, _. split; [reflexivity|].
    unfold processFormats. by repeat constructor. }
  unfold bind at 1. rewrite CommitID_run. unfold bind.
  destruct (wrap _ (WriteSignals jsonOut ss _) _) as [[failure|[]] σ1] eqn:Hjson.
  - intros [= <- <-]. apply wrap_inl in Hjson as (cause & -> & _).
    eexists _, _. split; [reflexivity|].
    unfold processFormats. by repeat constructor.
  - intros (cause & -> & _)%wrap_inl.
    eexists _, _. split; [reflexivity|].
    unfold processFormats. by repeat constructor.
Qed.

Lemma processRepos_error_wrapped w jobTime jobID jsonOut csvOut repos σ err σ' :
  processRepos w jobTime jobID jsonOut csvOut repos σ = (inl err, σ') ->
  wrapped processFormats err.
Proof.
  revert σ. induction repos as [|repo repos IH]; intros σ; [discriminate|].
  cbn [processRepos]. unfold bind.
  destruct (processRepo _ _ _ _ _ repo σ) as [[failure|[]] σ1] eqn:Hrepo.
  - intros [= <- <-]. by apply processRepo_error_wrapped in Hrepo.
  - apply IH.
Qed.

Lemma writeBuckets_error_wrapped w filename bucketURL σ err σ' :
  writeBuckets w filename bucketURL σ = (inl err, σ') ->
  wrapped processFormats err.
Proof.
  unfold writeBuckets, bind.
  destruct (if decide (csvBucketURL w <> "") then _ else _) as [[failure|[]] σ1]
    eqn:Hcsv.
  - intros [= <- <-]. case_decide; [|discriminate].
    apply wrap_inl in Hcsv as (cause & -> & _).
    eexists _, _. split; [reflexivity|].
    unfold processFormats. by repeat constructor.
  - intros (cause & -> & _)%wrap_inl.
    eexists _, _. split; [reflexivity|].
    unfold processFormats. by repeat constructor.
Qed.

(** X15. [Process] never returns a bare error: an error it returns wraps
    its cause with one of four messages, for a failed collection, a failed
    write of a record, and a failed write of the CSV or of the JSON file. *)
Theorem Process_errors_are_wrapped
  (w : collectWorker) (req : ScorecardBatchRequest) (bucketURL : string)
  (σ σ' : state) (err : error) :
  Process w req bucketURL σ = (inl err, σ') ->
  exists format cause,
    err = Errorf format cause
    /\ format ∈ [ "failed during signal collection: %w";
                  "failed writing signals: %w";
                  "error writing csv to blob store: %w";
                  "error writing json to blob store: %w" ]
    /\ Is err cause = true.
Proof.
  unfold Process, bind. rewrite prepare_run.
  destruct (processRepos _ _ _ _ _ _ _) as [[failure|[]] σ1] eqn:Hloop.
  - intros [= <- <-].
    apply processRepos_error_wrapped in Hloop as (format & cause & -> & Hin).
    exists format, cause. split; [reflexivity|]. split; [exact Hin|].
    apply Is_Errorf.
  - intros (format & cause & -> & Hin)%writeBuckets_error_wrapped.
    exists format, cause. split; [reflexivity|]. split; [exact Hin|].
    apply Is_Errorf.
Qed.

(** X16. When [Process] returns no error, both files are written, the
    canonical one last: the CSV buffer went to the CSV bucket if one is set,
    and after that the JSON buffer went to the bucket of the request, both
    writes succeeding, and nothing happened to the world after that. *)
Theorem Process_success_writes_canonical_last
  (w : collectWorker) (req : ScorecardBatchRequest) (bucketURL : string)
  (σ σ' : state) :
  Process w req bucketURL σ = (inr tt, σ') ->
  exists world0 world1,
    (if decide (csvBucketURL w = "") then world1 = world0
     else WriteToBlobStore (csvBucketURL w) (ResultFilename req)
            (csvOutput σ') world0 = (None, world1))
    /\ WriteToBlobStore bucketURL (ResultFilename req) (jsonOutput σ') world1
       = (None, world σ').
Proof.
  unfold Process, bind. rewrite prepare_run.
  destruct (processRepos _ _ _ _ _ _ _) as [[failure|[]] σ1]; [discriminate|].
  unfold writeBuckets, bind.
  destruct (decide (csvBucketURL w <> "")) as [Hset|Hunset].
  - destruct (wrap _ (writeToBlobStore (csvBucketURL w) _ _) σ1)
      as [[failure|[]] σ2] eqn:Hcsv; [discriminate|].
    apply wrap_inr in Hcsv. intros Hjson%wrap_inr.
    unfold writeToBlobStore in Hcsv, Hjson.
    destruct (WriteToBlobStore (csvBucketURL w) _ _ _) as [[bad|] world1]
      eqn:Hwrite1; [discriminate|].
    injection Hcsv as <-.
    destruct (WriteToBlobStore bucketURL _ _ _) as [[bad|] world2]
      eqn:Hwrite2; [discriminate|].
    injection Hjson as <-.
    exists (world σ1), world1. rewrite decide_False by done.
    split; [exact Hwrite1|exact Hwrite2].
  - cbn [ret]. intros Hjson%wrap_inr. unfold writeToBlobStore in Hjson.
    destruct (WriteToBlobStore bucketURL _ _ _) as [[bad|] world2]
      eqn:Hwrite2; [discriminate|].
    injection Hjson as <-.
    exists (world σ1), (world σ1). rewrite decide_True by (by apply dec_stable).
    split; [reflexivity|exact Hwrite2].
Qed.

End WorkerErrors.

Lemma Process_errors_are_wrapped_witness :
  exists format cause,
    Errorf "failed during signal collection: %w" (errors.New 11 "connection reset")
    = Errorf format cause
    /\ format ∈ [ "failed during signal collection: %w";
                  "failed writing signals: %w";
                  "error writing csv to blob store: %w";
                  "error writing json to blob store: %w" ]
    /\ Is (Errorf "failed during signal collection: %w"
             (errors.New 11 "connection reset")) cause = true.
Proof.
  apply (Process_errors_are_wrapped (H:=demo) demoWorker (shard "/down/repo")
           "bucket" demoStart
           (worker.Process (H:=demo) demoWorker (shard "/down/repo")
              "bucket" demoStart).2).
  reflexivity.
Defined.

Lemma Process_success_writes_canonical_last_witness :
  exists world0 world1 : nat,
    (if decide (worker.csvBucketURL demoWorker = "") then world1 = world0
     else worker.WriteToBlobStore (Collaborators:=demo)
            (worker.csvBucketURL demoWorker) "shard-0000000"
            (worker.csvOutput
               (worker.Process (H:=demo) demoWorker (shard "/gone/repo")
                  "bucket" demoStart).2) world0 = (None, world1))
    /\ worker.WriteToBlobStore (Collaborators:=demo) "bucket" "shard-0000000"
         (worker.jsonOutput
            (worker.Process (H:=demo) demoWorker (shard "/gone/repo")
               "bucket" demoStart).2) world1
       = (None, 3).
Proof.
  apply (Process_success_writes_canonical_last (H:=demo) demoWorker
           (shard "/gone/repo") "bucket" demoStart
           (worker.Process (H:=demo) demoWorker (shard "/gone/repo")
              "bucket" demoStart).2).
  reflexivity.
Defined.

(** ** Starting the worker *)

Section WorkerStartup.
Import worker.
Context `{Startup}.

Lemma wrapIO_inl {A : Type} (format : string) (m : IO A) world err world' :
  wrapIO format m world = (inl err, world') ->
  exists cause, err = Errorf format cause /\ m world = (inl cause, world').
Proof.
  unfold wrapIO. destruct (m world) as [[cause|a] world0];
    intros [= <- <-]; eauto.
Qed.

Lemma wrapIO_inr {A : Type} (format : string) (m : IO A) world a world' :
  wrapIO format m world = (inr a, world') -> m world = (inr a, world').
Proof.
  unfold wrapIO. by destruct (m world) as [[cause|a0] world0];
    intros [= <- <-].
Qed.

(** X17. [getScorer] touches nothing when it has nothing to read: with
    scoring disabled it returns the nil scorer and a nil error whatever the
    configuration file is, and with scoring enabled and no file it returns
    the default scorer; a nil scorer with a nil error is returned only when
    scoring is disabled, and an error only for a file that was named, wrapped
    as a failure to open or to read it. *)
Theorem getScorer_cases (scoringConfigFile : string) (world : World) :
  getScorer false scoringConfigFile world = (inr None, world)
  /\ getScorer true "" world = (inr (Some FromDefaultConfig), world)
  /\ (forall enabled res world',
        getScorer enabled scoringConfigFile world = (inr res, world') ->
        (res = None <-> enabled = false))
  /\ (forall enabled err world',
        getScorer enabled scoringConfigFile world = (inl err, world') ->
        enabled = true /\ scoringConfigFile <> ""
        /\ exists cause,
             Is err cause = true
             /\ (err = Errorf "opening config: %w" cause
                 \/ err = Errorf "from config: %w" cause)).
Proof.
  split; [reflexivity|]. split; [reflexivity|]. split.
  - intros [|] res world'; unfold getScorer; cbn [negb].
    + case_decide.
      * intros [= <- <-]. split; discriminate.
      * unfold bindIO.
        destruct (wrapIO _ (Open scoringConfigFile) world) as [[err|f] world1];
          [discriminate|].
        destruct (wrapIO _ (FromConfig _ f) world1) as [[err|scorer] world2];
          [discriminate|].
        intros [= <- <-]. split; discriminate.
    + intros [= <- <-]. done.
  - intros [|] err world'; unfold getScorer; cbn [negb]; [|discriminate].
    case_decide; [discriminate|]. unfold bindIO.
    destruct (wrapIO _ (Open scoringConfigFile) world) as [[failure|f] world1]
      eqn:Hopen.
    + intros [= <- <-]. apply wrapIO_inl in Hopen as (cause & -> & _).
      split; [reflexivity|]. split; [assumption|].
      exists cause. split; [apply Is_Errorf|by left].
    + destruct (wrapIO _ (FromConfig _ f) world1) as [[failure|scorer] world2]
        eqn:Hread; [|discriminate].
      intros [= <- <-]. apply wrapIO_inl in Hread as (cause & -> & _).
      split; [reflexivity|]. split; [assumption|].
      exists cause. split; [apply Is_Errorf|by right].
Qed.

(** What [NewWorker] returns when all three parts come up. *)
Lemma NewWorker_inr enabled file column csvBucket opts world w exporter world' :
  NewWorker enabled file column csvBucket opts world = (inr (w, exporter), world') ->
  exists world1 world2,
    collectorNew opts world = (inr (c w), world1)
    /\ getScorer enabled file world1 = (inr (s w), world2)
    /\ getMetricsExporter world2 = (inr exporter, world')
    /\ scoreColumnName w
       = match s w with
         | Some scorer => if decide (column = "") then scorerName scorer else column
         | None => column
         end
    /\ csvBucketURL w = csvBucket.
Proof.
  unfold NewWorker, bindIO.
  destruct (wrapIO _ (collectorNew opts) world) as [[err|col] world1] eqn:Hcol;
    [discriminate|].
  destruct (wrapIO _ (getScorer enabled file) world1) as [[err|scorer] world2]
    eqn:Hscorer; [discriminate|].
  destruct (wrapIO _ getMetricsExporter world2) as [[err|exp] world3] eqn:Hexp;
    [discriminate|].
  intros [= <- <- <-]. exists world1, world2.
  apply wrapIO_inr in Hcol, Hscorer, Hexp. cbn [c s scoreColumnName csvBucketURL].
  done.
Qed.

(** X18. A worker that [NewWorker] returns scores exactly when scoring was
    enabled; its score column is the column asked for, or, when none was asked
    for and it scores, the name of its scorer; its CSV bucket is the one
    given. *)
Theorem NewWorker_configures_scoring
  (scoringEnabled : bool) (scoringConfigFile scoringColumn csvBucket : string)
  (collectOpts : list Option) (world world' : World)
  (w : collectWorker) (exporter : Exporter) :
  NewWorker scoringEnabled scoringConfigFile scoringColumn csvBucket
    collectOpts world = (inr (w, exporter), world') ->
  (s w = None <-> scoringEnabled = false)
  /\ scoreColumnName w
     = (if decide (scoringColumn = "")
        then match s w with
             | Some scorer => scorerName scorer
             | None => ""
             end
        else scoringColumn)
  /\ csvBucketURL w = csvBucket.
Proof.
  intros (world1 & world2 & _ & Hscorer & _ & Hcolumn & Hbucket)%NewWorker_inr.
  destruct (getScorer_cases scoringConfigFile world1) as (_ & _ & Hnil & _).
  split; [by apply (Hnil _ _ _ Hscorer)|]. split; [|exact Hbucket].
  rewrite Hcolumn. destruct (s w); by case_decide.
Qed.

(** X19. [NewWorker] stops at the first part that fails, in the order
    collector, scorer, metrics exporter, and says which: its error wraps the
    failure of that part, the parts before it came up, and the parts after it
    were not started (the world is left as the failing part left it). *)
Theorem NewWorker_stops_at_first_failure
  (scoringEnabled : bool) (scoringConfigFile scoringColumn csvBucket : string)
  (collectOpts : list Option) (world world' : World) (err : error) :
  NewWorker scoringEnabled scoringConfigFile scoringColumn csvBucket
    collectOpts world = (inl err, world') ->
  exists cause,
    Is err cause = true
    /\ ((err = Errorf "collector: %w" cause
         /\ collectorNew collectOpts world = (inl cause, world'))
        \/ (exists col world1,
              err = Errorf "scorer: %w" cause
              /\ collectorNew collectOpts world = (inr col, world1)
              /\ getScorer scoringEnabled scoringConfigFile world1
                 = (inl cause, world'))
        \/ (exists col world1 scorer world2,
              err = Errorf "metrics exporter: %w" cause
              /\ collectorNew collectOpts world = (inr col, world1)
              /\ getScorer scoringEnabled scoringConfigFile world1
                 = (inr scorer, world2)
              /\ getMetricsExporter world2 = (inl cause, world'))).
Proof.
  unfold NewWorker, bindIO.
  destruct (wrapIO _ (collectorNew collectOpts) world) as [[failure|col] world1]
    eqn:Hcol.
  { intros [= <- <-]. apply wrapIO_inl in Hcol as (cause & -> & Hcol).
    exists cause. split; [apply Is_Errorf|]. by left. }
  apply wrapIO_inr in Hcol.
  destruct (wrapIO _ (getScorer _ _) world1) as [[failure|scorer] world2]
    eqn:Hscorer.
  { intros [= <- <-]. apply wrapIO_inl in Hscorer as (cause & -> & Hscorer).
    exists cause. split; [apply Is_Errorf|]. right; left. by exists col, world1. }
  apply wrapIO_inr in Hscorer.
  destruct (wrapIO _ getMetricsExporter world2) as [[failure|exp] world3]
    eqn:Hexp; [|discriminate].
  intros [= <- <-]. apply wrapIO_inl in Hexp as (cause & -> & Hexp).
  exists cause. split; [apply Is_Errorf|]. right; right.
  by exists col, world1, scorer, world2.
Qed.

End WorkerStartup.

Section WorkerCalls.
Import worker.
Context `{Collaborators}.

(** [Process] begins its calls into signalio by making the two writers. *)
Lemma Process_calls_prefix w req bucketURL σ :
  exists written,
    calls (Process w req bucketURL σ).2
    = calls σ
      ++ NewWriter jsonWriter
      :: NewWriter (csvWriter (EmptySets (c w)) (columns w (currentCommitID σ)))
      :: written.
Proof.
  unfold Process, bind. rewrite prepare_run.
  set (extras := columns w (currentCommitID σ)).
  set (σ1 := record _ _).
  assert (Hcalls1 : calls σ1
                    = calls σ ++ [NewWriter jsonWriter;
                                  NewWriter (csvWriter (EmptySets (c w)) extras)]).
  { unfold σ1. cbn [calls record setCSVOutput setJSONOutput setCommitID].
    by rewrite <- app_assoc. }
  pose proof (processRepos_onlyWrites w (GetJobTime req)
                (Format (GetJobTime req)) (GetRepos req) σ1)
    as [_ (written & Hcalls & _)].
  assert (Hid1 : currentCommitID σ1 = currentCommitID σ)
    by apply currentCommitID_stable.
  rewrite Hid1 in Hcalls. fold extras in Hcalls.
  destruct (processRepos _ _ _ _ _ _ σ1) as [[err|[]] σ2]; cbn [snd] in *.
  - exists written. by rewrite Hcalls, Hcalls1, <- app_assoc.
  - exists written.
    destruct (writeBuckets_silent w (ResultFilename req) bucketURL σ2)
      as [_ Hsilent].
    by rewrite Hsilent, Hcalls, Hcalls1, <- app_assoc.
Qed.

End WorkerCalls.

Section WorkerStartupProcess.
Import worker.
Context `{Startup}.

(** X20. Start-up and processing agree on the score column: the CSV writer
    that [Process] makes for a worker from [NewWorker] has a score column
    exactly when scoring was enabled, named as asked for or else after the
    scorer, and then the collection date and, unless the commit ID is
    missing, the commit ID column. *)
Theorem NewWorker_Process_score_column
  (scoringEnabled : bool) (scoringConfigFile scoringColumn csvBucket : string)
  (collectOpts : list Option) (world world' : World)
  (w : collectWorker) (exporter : Exporter) :
  NewWorker scoringEnabled scoringConfigFile scoringColumn csvBucket
    collectOpts world = (inr (w, exporter), world') ->
  forall (req : ScorecardBatchRequest) (bucketURL : string) (σ : state),
  exists written,
    calls (Process w req bucketURL σ).2
    = calls σ
      ++ NewWriter jsonWriter
      :: NewWriter
           (csvWriter (EmptySets (c w))
              ((if scoringEnabled
                then [if decide (scoringColumn = "")
                      then match s w with
                           | Some scorer => scorerName scorer
                           | None => ""
                           end
                      else scoringColumn]
                else [])
               ++ [collectionDateColumnName]
               ++ (if decide ((vcs.CommitID ReadBuildInfo (commitID σ)).1
                              = vcs.MissingCommitID)
                   then [] else [commitIDColumnName])))
      :: written.
Proof.
  intros Hnew req bucketURL σ.
  destruct (Process_calls_prefix w req bucketURL σ) as [written Hcalls].
  exists written. rewrite Hcalls. do 4 f_equal.
  apply NewWorker_inr in Hnew
    as (world1 & world2 & _ & Hscorer & _ & Hcolumn & _).
  destruct (getScorer_cases scoringConfigFile world1) as (_ & _ & Hnil & _).
  specialize (Hnil _ _ _ Hscorer).
  unfold columns. fold (currentCommitID σ). f_equal.
  rewrite Hcolumn. destruct (s w) as [scorer|], scoringEnabled.
  - by case_decide.
  - by destruct Hnil as [_ Hnil].
  - by destruct Hnil as [Hnil _]; specialize (Hnil eq_refl).
  - reflexivity.
Qed.

End WorkerStartupProcess.

Lemma getScorer_cases_witness :
  worker.getScorer (H0:=demoStartup) false "missing.yml" 0 = (inr None, 0)
  /\ worker.getScorer (H0:=demoStartup) true "" 0 = (inr (Some tt), 0).
Proof.
  destruct (getScorer_cases (H0:=demoStartup) "missing.yml" 0)
    as (Hdisabled & _).
  destruct (getScorer_cases (H0:=demoStartup) "" 0) as (_ & Hdefault & _).
  split; [exact Hdisabled|exact Hdefault].
Defined.

Lemma NewWorker_configures_scoring_witness :
  (worker.s demoWorker = None <-> true = false)
  /\ worker.scoreColumnName demoWorker = "default_score"
  /\ worker.csvBucketURL demoWorker = "".
Proof.
  apply (NewWorker_configures_scoring (H0:=demoStartup)
           true "" "" "" [] 0 0 demoWorker tt).
  reflexivity.
Defined.

Lemma NewWorker_stops_at_first_failure_witness :
  exists cause,
    Is (Errorf "scorer: %w"
          (Errorf "opening config: %w"
             (errors.New 15 "no such file or directory"))) cause = true
    /\ worker.getScorer (H0:=demoStartup) true "missing.yml" 0 = (inl cause, 0).
Proof.
  destruct (NewWorker_stops_at_first_failure (H0:=demoStartup)
              true "missing.yml" "" "" [] 0 0
              (Errorf "scorer: %w"
                 (Errorf "opening config: %w"
                    (errors.New 15 "no such file or directory")))
              eq_refl) as (cause & His & Hwhere).
  exists cause. split; [exact His|].
  destruct Hwhere as [[Heq _]|[(col & world1 & Heq & Hcol & Hscorer)|Hexp]].
  - discriminate.
  - injection Hcol as <- <-. exact Hscorer.
  - destruct Hexp as (col & world1 & scorer & world2 & Heq & _). discriminate.
Defined.

Lemma NewWorker_Process_score_column_witness :
  exists written,
    worker.calls
      (worker.Process (H:=demo) demoWorker (shard "/gone/repo") "bucket"
         demoStart).2
    = worker.calls demoStart
      ++ worker.NewWriter demoJSON :: worker.NewWriter demoCSV :: written.
Proof.
  apply (NewWorker_Process_score_column (H0:=demoStartup)
           true "" "" "" [] 0 0 demoWorker tt eq_refl
           (shard "/gone/repo") "bucket" demoStart).
Defined.

Section WorkerRecords.
Import worker.
Context `{Collaborators}.

Lemma carrying_refl w jobTime id σ : carrying w jobTime id σ σ.
Proof.
  split; [reflexivity|]. exists []. split; [by rewrite app_nil_r|constructor].
Qed.

Lemma carrying_trans w jobTime id σ1 σ2 σ3 :
  carrying w jobTime id σ1 σ2 -> carrying w jobTime id σ2 σ3 ->
  carrying w jobTime id σ1 σ3.
Proof.
  intros [Hid12 (m12 & Hc12 & Hm12)] [Hid23 (m23 & Hc23 & Hm23)]. split.
  - congruence.
  - exists (m12 ++ m23). split.
    + by rewrite Hc23, Hc12, app_assoc.
    + by apply Forall_app.
Qed.

Lemma carrying_silent w jobTime id σ σ' :
  commitID σ' = commitID σ -> calls σ' = calls σ ->
  carrying w jobTime id σ σ'.
Proof.
  intros Hid Hcalls. split.
  - unfold currentCommitID. by rewrite Hid.
  - exists []. split; [by rewrite app_nil_r|constructor].
Qed.

Lemma WriteSignals_carrying w jobTime id out ss σ :
  carrying w jobTime id σ
    (WriteSignals out ss (extraFields w jobTime id ss) σ).2.
Proof.
  set (fields := extraFields w jobTime id ss).
  assert (Hgoal : commitID (WriteSignals out ss fields σ).2 = commitID σ
                  /\ calls (WriteSignals out ss fields σ).2
                     = calls σ ++ [WriteSignalsCall out ss fields]).
  { unfold WriteSignals. destruct out as [|es hdr].
    - by destruct (jsonWriteSignals ss fields).
    - by destruct (csvWriteSignals es hdr ss fields). }
  destruct Hgoal as [Hid Hcalls]. split.
  - unfold currentCommitID. by rewrite Hid.
  - eexists. split; [exact Hcalls|]. constructor; [reflexivity|constructor].
Qed.

Lemma processRepo_carrying w jobTime jobID jsonOut csvOut repo σ :
  carrying w jobTime (currentCommitID σ) σ
    (processRepo w jobTime jobID jsonOut csvOut repo σ).2.
Proof.
  set (id := currentCommitID σ). unfold processRepo.
  case_decide; [apply carrying_refl|].
  destruct (Parse (GetUrl repo)) as [err|u]; [apply carrying_refl|].
  unfold bind at 1. unfold collect.
  destruct (Collect (c w) u jobID (world σ)) as [[ss err] world'].
  set (σ1 := setWorld world' σ).
  assert (H1 : carrying w jobTime id σ σ1) by by apply carrying_silent.
  destruct err as [err|].
  { destruct (Is err ErrUncollectableRepo); exact H1. }
  unfold bind at 1. rewrite CommitID_run.
  assert (Hid : currentCommitID σ1 = id) by apply H1.
  set (σ2 := setCommitID (currentCommitID σ1) σ1).
  assert (H2 : carrying w jobTime id σ1 σ2).
  { split; [apply currentCommitID_stable|].
    exists []. split; [by rewrite app_nil_r|constructor]. }
  match goal with
  | |- context [WriteSignals jsonOut ss ?fs] =>
      replace fs with (extraFields w jobTime id ss)
  end.
  2:{ unfold extraFields. rewrite Hid.
      destruct (s w); destruct (decide (id = vcs.MissingCommitID));
        (rewrite ?decide_True by done; rewrite ?decide_False by tauto);
        reflexivity. }
  unfold bind.
  pose proof (WriteSignals_carrying w jobTime id jsonOut ss σ2) as H3.
  rewrite <- (wrap_state "failed writing signals: %w") in H3.
  destruct (wrap _ (WriteSignals jsonOut ss _) σ2) as [[err|[]] σ3];
    cbn [snd] in H3 |- *.
  { eauto using carrying_trans. }
  rewrite wrap_state.
  pose proof (WriteSignals_carrying w jobTime id csvOut ss σ3) as H4.
  eauto using carrying_trans.
Qed.

Lemma processRepos_carrying w jobTime jobID jsonOut csvOut repos σ :
  carrying w jobTime (currentCommitID σ) σ
    (processRepos w jobTime jobID jsonOut csvOut repos σ).2.
Proof.
  revert σ. induction repos as [|repo rest IH]; intros σ; [apply carrying_refl|].
  cbn [processRepos]. unfold bind.
  pose proof (processRepo_carrying w jobTime jobID jsonOut csvOut repo σ) as Hrepo.
  destruct (processRepo _ _ _ _ _ repo σ) as [[err|[]] σ']; [exact Hrepo|].
  cbn [snd] in Hrepo. specialize (IH σ').
  destruct Hrepo as [Hid Hcalls]. rewrite Hid in IH.
  exact (carrying_trans _ _ _ _ _ _ (conj Hid Hcalls) IH).
Qed.

(** X21. Every record [Process] writes, to either writer, carries as extra
    fields the score of that record's signals (if the worker scores), the
    job time of the request as collection date, and the commit ID (unless it
    is missing), in this order and with nothing else. *)
Theorem Process_records_carry_job_time
  (w : collectWorker) (req : ScorecardBatchRequest) (bucketURL : string)
  (σ : state) :
  exists made,
    calls (Process w req bucketURL σ).2 = calls σ ++ made
    /\ Forall (carries w (GetJobTime req)
                 (vcs.CommitID ReadBuildInfo (commitID σ)).1) made.
Proof.
  fold (currentCommitID σ). unfold Process, bind. rewrite prepare_run.
  set (σ1 := record _ _).
  assert (H1 : carrying w (GetJobTime req) (currentCommitID σ) σ σ1).
  { split; [apply currentCommitID_stable|].
    exists [NewWriter jsonWriter;
            NewWriter (csvWriter (EmptySets (c w))
                         (columns w (currentCommitID σ)))].
    split; [|by repeat constructor].
    unfold σ1. cbn [calls record setCSVOutput setJSONOutput setCommitID].
    by rewrite <- app_assoc. }
  pose proof (processRepos_carrying w (GetJobTime req) (Format (GetJobTime req))
                jsonWriter
                (csvWriter (EmptySets (c w)) (columns w (currentCommitID σ)))
                (GetRepos req) σ1) as H2.
  destruct H1 as [Hid1 Hcalls1]. rewrite Hid1 in H2.
  pose proof (carrying_trans _ _ _ _ _ _ (conj Hid1 Hcalls1) H2) as H3.
  destruct (processRepos _ _ _ _ _ _ σ1) as [[err|[]] σ2]; cbn [snd] in *.
  - apply H3.
  - destruct (writeBuckets_silent w (ResultFilename req) bucketURL σ2)
      as [_ Hsilent].
    rewrite Hsilent. apply H3.
Qed.

End WorkerRecords.

Section MetricsExporter.
Import worker.
Context `{Startup}.

(** X22. [getMetricsExporter] returns the exporter only after it was
    started and the views were registered, in this order; when a step fails
    the later steps are not run and the error wraps the failure of that step
    with a message of its own. *)
Theorem getMetricsExporter_steps (world world' : World) :
  (forall exporter,
     getMetricsExporter world = (inr exporter, world') ->
     exists world1 world2,
       GetExporter world = (inr exporter, world1)
       /\ StartMetricsExporter exporter world1 = (None, world2)
       /\ viewRegister world2 = (None, world'))
  /\ (forall err,
        getMetricsExporter world = (inl err, world') ->
        exists cause,
          Is err cause = true
          /\ ((err = Errorf "getting monitoring exporter: %w" cause
               /\ GetExporter world = (inl cause, world'))
              \/ (exists exporter world1,
                    err = Errorf "starting exporter: %w" cause
                    /\ GetExporter world = (inr exporter, world1)
                    /\ StartMetricsExporter exporter world1
                       = (Some cause, world'))
              \/ (exists exporter world1 world2,
                    err = Errorf "opencensus view register: %w" cause
                    /\ GetExporter world = (inr exporter, world1)
                    /\ StartMetricsExporter exporter world1 = (None, world2)
                    /\ viewRegister world2 = (Some cause, world')))).
Proof.
  unfold getMetricsExporter, bindIO, wrapIO, check, retIO.
  destruct (GetExporter world) as [[bad|exporter] world1] eqn:Hget.
  { split; [discriminate|]. intros err [= <- <-].
    exists bad. split; [apply Is_Errorf|]. by left. }
  destruct (StartMetricsExporter exporter world1) as [[bad|] world2] eqn:Hstart.
  { split; [discriminate|]. intros err [= <- <-].
    exists bad. split; [apply Is_Errorf|]. right; left.
    by exists exporter, world1. }
  destruct (viewRegister world2) as [[bad|] world3] eqn:Hregister.
  { split; [discriminate|]. intros err [= <- <-].
    exists bad. split; [apply Is_Errorf|]. right; right.
    by exists exporter, world1, world2. }
  split; [|discriminate]. intros exporter' [= <- <-].
  by exists world1, world2.
Qed.

End MetricsExporter.

Lemma getMetricsExporter_steps_witness :
  exists world1 world2 : nat,
    worker.GetExporter (Startup:=demoStartup) 0 = (inr tt, world1)
    /\ worker.StartMetricsExporter (Startup:=demoStartup) tt world1
       = (None, world2)
    /\ worker.viewRegister (Startup:=demoStartup) world2 = (None, 0).
Proof.
  apply (proj1 (getMetricsExporter_steps (H0:=demoStartup) 0 0) tt).
  reflexivity.
Defined.
